(** * scripts/fix-test-waits.py: the wait-pattern rewrite script

    A shallow embedding of [fix_file] and [main] of
    [scripts/fix-test-waits.py], together with the part of Python's [re] and
    [str] that the script calls, and the properties of the rewrite that the
    specification states.

    Text is a list of characters.  A character is a code point below 256
    (an [ascii]); the classes [\w], [\d] and [\s] and [str.strip] are
    Python's for that range. *)

From Stdlib Require Import Ascii String List Arith Lia Bool.
Import ListNotations.
Open Scope char_scope.
Open Scope string_scope.
Open Scope nat_scope.
Open Scope list_scope.

(** ** Text and the [str] methods used by the script *)

Definition text := list ascii.

Definition str (s : string) : text := list_ascii_of_string s.

Definition nl : ascii := "010".
Definition dquote : ascii := "034".
Definition backslash : ascii := "\".

Definition code (c : ascii) : nat := nat_of_ascii c.

Definition in_range (lo hi : nat) (c : ascii) : bool :=
  (lo <=? code c) && (code c <=? hi).

(** [str.isspace] on one character, which is also [\s] of [re]. *)
Definition isspace (c : ascii) : bool :=
  in_range 9 13 c || in_range 28 32 c || (code c =? 133) || (code c =? 160).

(** [\d] of [re]: the decimal digits. *)
Definition isdigit (c : ascii) : bool := in_range 48 57 c.

(** [\w] of [re]: alphanumeric characters and the underscore. *)
Definition isword (c : ascii) : bool :=
  in_range 48 57 c || in_range 65 90 c || (code c =? 95) || in_range 97 122 c
  || (code c =? 170) || in_range 178 179 c || (code c =? 181)
  || in_range 185 186 c || in_range 188 190 c || in_range 192 214 c
  || in_range 216 246 c || in_range 248 255 c.

Definition text_eqb (a b : text) : bool :=
  if list_eq_dec ascii_dec a b then true else false.

(** [s.startswith(p)] *)
Fixpoint startswith (p s : text) : bool :=
  match p, s with
  | [], _ => true
  | _ :: _, [] => false
  | a :: p', b :: s' => Ascii.eqb a b && startswith p' s'
  end.

(** [p in s] *)
Fixpoint contains (p s : text) : bool :=
  startswith p s ||
  match s with
  | [] => false
  | _ :: s' => contains p s'
  end.

(** [s.split('\n')] *)
Fixpoint split_lines (s : text) : list text :=
  match s with
  | [] => [[]]
  | c :: s' =>
      if Ascii.eqb c nl then [] :: split_lines s'
      else match split_lines s' with
           | l :: ls => (c :: l) :: ls
           | [] => [[c]]
           end
  end.

(** ['\n'.join(ls)] *)
Fixpoint join_lines (ls : list text) : text :=
  match ls with
  | [] => []
  | [l] => l
  | l :: ls' => l ++ nl :: join_lines ls'
  end.

Fixpoint lstrip (s : text) : text :=
  match s with
  | c :: s' => if isspace c then lstrip s' else s
  | [] => []
  end.

(** [s.strip()] *)
Definition strip (s : text) : text := rev (lstrip (rev (lstrip s))).

(** [s.endswith(p)] *)
Definition endswith (p s : text) : bool := startswith (rev p) (rev s).

(** [s.count(c)] for a one-character [c] *)
Definition count_char (c : ascii) (s : text) : nat :=
  length (filter (Ascii.eqb c) s).

(** ** The fragment of [re] used by the script

    Patterns are kept as syntax trees.  Every quantifier of the script's
    patterns ranges over a single character set ([\w+], [\d+], [\s+], [\s*],
    [[^)]+], [.*?]), so repetition is over a set. *)

Inductive cset : Type :=
| Any                     (* [.] under [re.DOTALL] *)
| Word                    (* [\w] *)
| Digit                   (* [\d] *)
| Space                   (* [\s] *)
| OneOf (l : text)        (* [[...]] *)
| NoneOf (l : text).      (* [[^...]] *)

Definition mem (cs : cset) (c : ascii) : bool :=
  match cs with
  | Any => true
  | Word => isword c
  | Digit => isdigit c
  | Space => isspace c
  | OneOf l => existsb (Ascii.eqb c) l
  | NoneOf l => negb (existsb (Ascii.eqb c) l)
  end.

Inductive regex : Type :=
| Eps
| Lit (c : ascii)
| Cls (cs : cset)
| Rep (greedy : bool) (lo : nat) (cs : cset)   (* [cs{lo,}], greedy or lazy *)
| Grp (n : nat) (r : regex)                    (* capturing group number [n] *)
| Seq (r1 r2 : regex).

Fixpoint lits (l : text) : regex :=
  match l with
  | [] => Eps
  | c :: l' => Seq (Lit c) (lits l')
  end.

(** A literal string in a pattern. *)
Definition lit (l : string) : regex := lits (str l).

Declare Scope re_scope.
Delimit Scope re_scope with re.
Bind Scope re_scope with regex.
Notation "a ;; b" := (Seq a b) (at level 61, right associativity) : re_scope.

(** Captured groups, most recent first. *)
Definition caps := list (nat * text).

Fixpoint get_group (n : nat) (g : caps) : option text :=
  match g with
  | [] => None
  | (i, t) :: g' => if i =? n then Some t else get_group n g'
  end.

Section Matcher.
Variable A : Type.

(** Greedy repetition: take one more character of the set when possible,
    fall back to the continuation when that fails. *)
Fixpoint rep_greedy (cs : cset) (k : text -> option A) (lo : nat) (s : text)
  : option A :=
  match s with
  | c :: s' =>
      if mem cs c then
        match rep_greedy cs k (pred lo) s' with
        | Some r => Some r
        | None => if lo =? 0 then k s else None
        end
      else if lo =? 0 then k s else None
  | [] => if lo =? 0 then k [] else None
  end.

(** Lazy repetition: try the continuation first, take one more character
    of the set when that fails. *)
Fixpoint rep_lazy (cs : cset) (k : text -> option A) (lo : nat) (s : text)
  : option A :=
  match s with
  | c :: s' =>
      match lo with
      | 0 =>
          match k s with
          | Some r => Some r
          | None => if mem cs c then rep_lazy cs k 0 s' else None
          end
      | S lo' => if mem cs c then rep_lazy cs k lo' s' else None
      end
  | [] => if lo =? 0 then k [] else None
  end.
End Matcher.

Arguments rep_greedy {A} cs k lo s.
Arguments rep_lazy {A} cs k lo s.

(** The backtracking matcher, in continuation-passing style: [m r k s g]
    matches [r] at the head of [s] with captures [g] and hands the rest of
    the subject to [k]; the first success in the order of Python's
    backtracking is the result. *)
Definition cont := text -> caps -> option (text * caps).

Fixpoint m (r : regex) (k : cont) (s : text) (g : caps) : option (text * caps) :=
  match r with
  | Eps => k s g
  | Lit c =>
      match s with
      | x :: s' => if Ascii.eqb x c then k s' g else None
      | [] => None
      end
  | Cls cs =>
      match s with
      | x :: s' => if mem cs x then k s' g else None
      | [] => None
      end
  | Rep true lo cs => rep_greedy cs (fun s' => k s' g) lo s
  | Rep false lo cs => rep_lazy cs (fun s' => k s' g) lo s
  | Grp n r' =>
      m r' (fun s' g' => k s' ((n, firstn (length s - length s') s) :: g')) s g
  | Seq r1 r2 => m r1 (m r2 k) s g
  end.

(** A match of [r] at the head of [s]: the rest of the subject after the
    match, and the groups. *)
Definition match_at (r : regex) (s : text) : option (text * caps) :=
  m r (fun s' g => Some (s', g)) s [].

(** [re.search(r, s)]: the leftmost match; the result is the groups. *)
Fixpoint search (r : regex) (s : text) : option caps :=
  match match_at r s with
  | Some (_, g) => Some g
  | None =>
      match s with
      | [] => None
      | _ :: s' => search r s'
      end
  end.

(** Number of capturing groups of a pattern. *)
Fixpoint ngroups (r : regex) : nat :=
  match r with
  | Grp n r' => Nat.max n (ngroups r')
  | Seq r1 r2 => Nat.max (ngroups r1) (ngroups r2)
  | _ => 0
  end.

(** *** Replacement templates

    A template is parsed as [re] parses it: a backslash and a digit is a
    group reference, a backslash and one of [abfnrtv\] is the character it
    stands for, a backslash and any other ASCII letter is an error, and a
    backslash before any other character stays in the text together with
    that character.  The forms [\g<..>], [\0] and multi-digit references,
    which no template of the script uses, are errors of this parser. *)

Inductive titem : Type :=
| TLit (c : ascii)
| TGrp (n : nat).

Definition isletter (c : ascii) : bool :=
  in_range 65 90 c || in_range 97 122 c.

Definition escape_char (c : ascii) : option ascii :=
  if Ascii.eqb c "a" then Some "007"%char
  else if Ascii.eqb c "b" then Some "008"%char
  else if Ascii.eqb c "f" then Some "012"%char
  else if Ascii.eqb c "n" then Some nl
  else if Ascii.eqb c "r" then Some "013"%char
  else if Ascii.eqb c "t" then Some "009"%char
  else if Ascii.eqb c "v" then Some "011"%char
  else if Ascii.eqb c backslash then Some backslash
  else None.

Fixpoint parse_template (t : text) : option (list titem) :=
  match t with
  | [] => Some []
  | c :: t' =>
      if Ascii.eqb c backslash then
        match t' with
        | [] => None                                  (* bad escape (end of pattern) *)
        | e :: t'' =>
            let next_is_digit :=
              match t'' with d :: _ => isdigit d | [] => false end in
            if isdigit e then
              if Ascii.eqb e "0" || next_is_digit then None
              else option_map (cons (TGrp (code e - 48))) (parse_template t'')
            else if Ascii.eqb e "g" then None
            else
              match escape_char e with
              | Some x => option_map (cons (TLit x)) (parse_template t'')
              | None =>
                  if isletter e then None             (* bad escape *)
                  else option_map (fun r => TLit c :: TLit e :: r)
                                  (parse_template t'')
              end
        end
      else option_map (cons (TLit c)) (parse_template t')
  end.

Definition refs_ok (n : nat) (items : list titem) : bool :=
  forallb (fun i => match i with TGrp j => j <=? n | TLit _ => true end) items.

(** Compiling a template for a pattern: a reference to a group the pattern
    does not have is an error (invalid group reference). *)
Definition compile_template (r : regex) (t : text) : option (list titem) :=
  match parse_template t with
  | Some items => if refs_ok (ngroups r) items then Some items else None
  | None => None
  end.

(** Expanding a template for one match; a group that took no part in the
    match expands to the empty string. *)
Fixpoint expand (items : list titem) (g : caps) : text :=
  match items with
  | [] => []
  | TLit c :: rest => c :: expand rest g
  | TGrp n :: rest =>
      match get_group n g with
      | Some t => t ++ expand rest g
      | None => expand rest g
      end
  end.

(** *** [re.subn]

    The subject is scanned from the left; at a match the expansion of the
    template is emitted and the scan resumes after the match ([skip] counts
    the characters of the match still to pass over), elsewhere the character
    is copied.  An empty match emits the expansion and copies the character. *)
Fixpoint scan (r : regex) (items : list titem) (skip : nat) (s : text)
  : text * nat :=
  match s with
  | [] =>
      match skip, match_at r [] with
      | 0, Some (_, g) => (expand items g, 1)
      | _, _ => ([], 0)
      end
  | c :: s' =>
      match skip with
      | S j => scan r items j s'
      | 0 =>
          match match_at r s with
          | Some (s'', g) =>
              let len := length s - length s'' in
              let (out, n) := scan r items (pred len) s' in
              if len =? 0 then (expand items g ++ c :: out, S n)
              else (expand items g ++ out, S n)
          | None =>
              let (out, n) := scan r items 0 s' in (c :: out, n)
          end
      end
  end.

Definition subn (r : regex) (repl : text) (s : text) : option (text * nat) :=
  match compile_template r repl with
  | Some items => Some (scan r items 0 s)
  | None => None
  end.

(** [re.sub] is [re.subn] without the count. *)
Definition sub (r : regex) (repl : text) (s : text) : option text :=
  option_map fst (subn r repl s).

(** ** The script *)

(** Failing steps (an exception in the script) are [None]. *)
Notation "x <- c1 ;; c2" :=
  (match c1 with Some x => c2 | None => None end)
  (at level 61, c1 at next level, right associativity).
Notation "' p <- c1 ;; c2" :=
  (match c1 with Some p => c2 | None => None end)
  (at level 61, p pattern, c1 at next level, right associativity).

Definition quote_set : cset := OneOf ["'"%char; dquote].

(** Fix 1: [r"await (\w+)\.waitForLoadState\(['\"]networkidle['\"]\)"] *)
Definition pattern1 : regex :=
  (lit "await " ;; Grp 1 (Rep true 1 Word) ;; lit ".waitForLoadState(" ;;
   Cls quote_set ;; lit "networkidle" ;; Cls quote_set ;; lit ")")%re.

Definition replacement1 : text :=
  str "await \1.waitForSelector('body', { timeout: 5000 })".

(** Fix 2: [r'await (\w+)\.goto\(([^)]+)\)'], the pattern of the [re.search]
    and the [re.sub] in the loop over the lines.  (The pattern and the
    replacement that the script assigns just before the loop are never
    used.) *)
Definition pattern_goto : regex :=
  (lit "await " ;; Grp 1 (Rep true 1 Word) ;; lit ".goto(" ;;
   Grp 2 (Rep true 1 (NoneOf [")"%char])) ;; lit ")")%re.

(** The replacement is the raw string
    [r'await \1.goto(\2, { waitUntil: \'domcontentloaded\', timeout: 10000 })']:
    in a raw string the backslash before a quote stays in the string. *)
Definition replacement_goto : text :=
  str "await \1.goto(\2, { waitUntil: \'domcontentloaded\', timeout: 10000 })".

(** Fix 3, compiled with [re.DOTALL]:
    [r"(// Wait for iframe to load.*?\n\s+)await (\w+)\.waitForTimeout\(\d+\)"] *)
Definition pattern3 : regex :=
  (Grp 1 (lit "// Wait for iframe to load" ;; Rep false 0 Any ;; Lit nl ;;
          Rep true 1 Space) ;;
   lit "await " ;; Grp 2 (Rep true 1 Word) ;; lit ".waitForTimeout(" ;;
   Rep true 1 Digit ;; lit ")")%re.

Definition replacement3 : text :=
  str "\1await \2.waitForSelector('#absmartly-sidebar-iframe', { state: 'attached', timeout: 5000 }).catch(() => {})".

(** Fix 4:
    [r"await (\w+)\.click\(\)\s*\n(\s+)await (\w+)\.waitForTimeout\(\d+\)"] *)
Definition pattern4 : regex :=
  (lit "await " ;; Grp 1 (Rep true 1 Word) ;; lit ".click()" ;;
   Rep true 0 Space ;; Lit nl ;; Grp 2 (Rep true 1 Space) ;;
   lit "await " ;; Grp 3 (Rep true 1 Word) ;; lit ".waitForTimeout(" ;;
   Rep true 1 Digit ;; lit ")")%re.

Definition replacement4 : text :=
  str "await \1.click()\n\2// Wait briefly for UI update\n\2await \3.waitForLoadState('domcontentloaded', { timeout: 2000 }).catch(() => {})".

(** Fix 5: [r"await (\w+)\.waitForTimeout\((\d+)\)"] *)
Definition pattern5 : regex :=
  (lit "await " ;; Grp 1 (Rep true 1 Word) ;; lit ".waitForTimeout(" ;;
   Grp 2 (Rep true 1 Digit) ;; lit ")")%re.

Definition replacement5 : text :=
  str "// TODO: Replace timeout with specific element wait\n    await \1.waitForFunction(() => document.readyState === 'complete', { timeout: \2 }).catch(() => {})".

(** The condition of the [if] in the loop of Fix 2. *)
Definition goto_guard (line : text) : bool :=
  contains (str "await ") line && contains (str ".goto(") line
  && negb (contains (str ", {") line)
  && negb (endswith (str ",") (strip line)).

(** The body of the loop of Fix 2: the new line and what is added to
    [changes].  [match.group(2)] of a group that took no part in the match
    is [None], and [.count] on it raises. *)
Definition fix2_line (line : text) : option (text * nat) :=
  if goto_guard line then
    match search pattern_goto line with
    | Some g =>
        arg <- get_group 2 g ;;
        if count_char "," arg =? 0 then
          line' <- sub pattern_goto replacement_goto line ;;
          Some (line', 1)
        else Some (line, 0)
    | None => Some (line, 0)
    end
  else Some (line, 0).

Fixpoint fix2_loop (lines new_lines : list text) (changes : nat)
  : option (list text * nat) :=
  match lines with
  | [] => Some (new_lines, changes)
  | line :: rest =>
      '(line', d) <- fix2_line line ;;
      fix2_loop rest (new_lines ++ [line']) (changes + d)
  end.

(** The five fixes, from [original = content] to the last [changes += n]. *)
Definition apply_fixes (original : text) : option (text * nat) :=
  let content := original in
  let changes := 0 in
  '(content, n) <- subn pattern1 replacement1 content ;;
  let changes := changes + n in
  let lines := split_lines content in
  '(new_lines, changes) <- fix2_loop lines [] changes ;;
  let content := join_lines new_lines in
  '(content, n) <- subn pattern3 replacement3 content ;;
  let changes := changes + n in
  '(content, n) <- subn pattern4 replacement4 content ;;
  let changes := changes + n in
  '(content, n) <- subn pattern5 replacement5 content ;;
  let changes := changes + n in
  Some (content, changes).

(** The files: a path has contents or does not exist. *)
Definition files := string -> option text.

Definition write (fs : files) (path : string) (content : text) : files :=
  fun p => if String.eqb p path then Some content else fs p.

(** [fix_file(filepath)]: the files afterwards and the returned count. *)
Definition fix_file (fs : files) (filepath : string) : option (files * nat) :=
  original <- fs filepath ;;
  '(content, changes) <- apply_fixes original ;;
  if negb (text_eqb content original)
  then Some (write fs filepath content, changes)
  else Some (fs, 0).

(** The rewrite engine of the specification, [rewrite(text)]: the text that
    [fix_file] leaves in a file whose contents were [t], and the count it
    returns. *)
Definition rewrite (t : text) : option (text * nat) :=
  '(fs, n) <- fix_file (write (fun _ => None) "f" t) "f" ;;
  t' <- fs "f" ;;
  Some (t', n).

(** *** The driver *)

(** An open file: its contents and the read position. *)
Record handle : Type := { data : text; pos : nat }.

Definition open (content : text) : handle := {| data := content; pos := 0 |}.

(** [f.read()]: the contents from the position to the end; the position is
    then at the end. *)
Definition read (f : handle) : text * handle :=
  (skipn (pos f) (data f), {| data := data f; pos := length (data f) |}).

(** The test before [continue] in [main]:
    ['waitForTimeout' not in f.read() and 'networkidle' not in f.read()],
    both reads on the same open file. *)
Definition skipped (content : text) : bool :=
  let f := open content in
  let (r1, f) := read f in
  if negb (contains (str "waitForTimeout") r1) then
    let (r2, f) := read f in
    negb (contains (str "networkidle") r2)
  else false.

Record totals : Type :=
  { fs_of : files; total_files : nat; total_changes : nat;
    fixed : list string (* the paths handed to [fix_file], in order *) }.

Fixpoint main_loop (spec_files : list string) (st : totals) : option totals :=
  match spec_files with
  | [] => Some st
  | filepath :: rest =>
      content <- fs_of st filepath ;;
      if skipped content then main_loop rest st
      else
        '(fs, changes) <- fix_file (fs_of st) filepath ;;
        if 0 <? changes then
          main_loop rest {| fs_of := fs; total_files := total_files st + 1;
                            total_changes := total_changes st + changes;
                            fixed := fixed st ++ [filepath] |}
        else
          main_loop rest {| fs_of := fs; total_files := total_files st;
                            total_changes := total_changes st;
                            fixed := fixed st ++ [filepath] |}
  end.

(** [main()] over the files found by [TESTS_DIR.rglob("*.spec.ts")]. *)
Definition main (spec_files : list string) (fs : files) : option totals :=
  main_loop spec_files
    {| fs_of := fs; total_files := 0; total_changes := 0; fixed := [] |}.


(** ** What a pattern matches

    [Match r w g g'] says that the text [w] is a match of [r] which turns the
    captures [g] into [g']: the relation the backtracking matcher searches. *)

Inductive Match : regex -> text -> caps -> caps -> Prop :=
| MEps g : Match Eps [] g g
| MLit c g : Match (Lit c) [c] g g
| MIn cs c g : mem cs c = true -> Match (Cls cs) [c] g g
| MRep gr lo cs w g :
    forallb (mem cs) w = true -> lo <= length w -> Match (Rep gr lo cs) w g g
| MGrp n r w g g' : Match r w g g' -> Match (Grp n r) w g ((n, w) :: g')
| MSeq r1 r2 w1 w2 g g1 g2 :
    Match r1 w1 g g1 -> Match r2 w2 g1 g2 -> Match (Seq r1 r2) (w1 ++ w2) g g2.

#[local] Hint Constructors Match : core.

(** The pattern [r] has a match somewhere in [t]. *)
Definition occurs (r : regex) (t : text) : Prop :=
  exists pre w post g, t = pre ++ w ++ post /\ Match r w [] g.

(** The same, by running the matcher at every position. *)
Fixpoint has_match (r : regex) (t : text) : bool :=
  match match_at r t with
  | Some _ => true
  | None => match t with [] => false | _ :: t' => has_match r t' end
  end.

(** *** The trigger shapes of the five rules

    Rules 1, 3, 4 and 5 are triggered by a match of their pattern anywhere in
    the text.  Rule 2 is triggered by a line that passes the guard and holds
    a [goto] call whose argument has no comma. *)

Definition goto_call (line : text) : Prop :=
  exists pre w post g arg,
    line = pre ++ w ++ post /\ Match pattern_goto w [] g
    /\ get_group 2 g = Some arg /\ count_char "," arg = 0.

Definition goto_trigger (t : text) : Prop :=
  exists line, In line (split_lines t) /\ goto_guard line = true
               /\ goto_call line.

Definition trigger_free (t : text) : Prop :=
  ~ occurs pattern1 t /\ ~ goto_trigger t /\ ~ occurs pattern3 t
  /\ ~ occurs pattern4 t /\ ~ occurs pattern5 t.

(** *** Counting the substitutions

    [substitutions t] is the number of individual substitutions performed on
    the way from [t] to the rewritten text: what [re.subn] reports for rules
    1, 3, 4 and 5, and for rule 2 the number of replacements that the
    [re.sub] of each rewritten line makes. *)

Definition fix2_line_subs (line : text) : option (text * nat) :=
  if goto_guard line then
    match search pattern_goto line with
    | Some g =>
        arg <- get_group 2 g ;;
        if count_char "," arg =? 0 then subn pattern_goto replacement_goto line
        else Some (line, 0)
    | None => Some (line, 0)
    end
  else Some (line, 0).

Fixpoint fix2_subs (lines : list text) : option (list text * nat) :=
  match lines with
  | [] => Some ([], 0)
  | line :: rest =>
      '(line', d) <- fix2_line_subs line ;;
      '(rest', n) <- fix2_subs rest ;;
      Some (line' :: rest', d + n)
  end.

Definition substitutions (t : text) : option nat :=
  '(c1, n1) <- subn pattern1 replacement1 t ;;
  '(ls, n2) <- fix2_subs (split_lines c1) ;;
  '(c3, n3) <- subn pattern3 replacement3 (join_lines ls) ;;
  '(c4, n4) <- subn pattern4 replacement4 c3 ;;
  '(c5, n5) <- subn pattern5 replacement5 c4 ;;
  Some (n1 + n2 + n3 + n4 + n5).

(** *** Notions used in the statements *)

(** A text given by its lines. *)
Definition unlines (ls : list string) : text := join_lines (map str ls).


(** A second pass over the result of the first returns that same text and
    reports no change. *)
Definition idempotent_on (t : text) : Prop :=
  forall out n, rewrite t = Some (out, n) -> rewrite out = Some (out, 0).

(** The compiled templates of the five replacements. *)
Definition compiled (r : regex) (repl : text) : list titem :=
  match compile_template r repl with Some items => items | None => [] end.

Definition items1 : list titem :=
  Eval vm_compute in compiled pattern1 replacement1.
Definition items_goto : list titem :=
  Eval vm_compute in compiled pattern_goto replacement_goto.
Definition items3 : list titem :=
  Eval vm_compute in compiled pattern3 replacement3.
Definition items4 : list titem :=
  Eval vm_compute in compiled pattern4 replacement4.
Definition items5 : list titem :=
  Eval vm_compute in compiled pattern5 replacement5.

(** A fixed-duration wait call, and the texts that rules 3, 4 and 5 put in
    its place. *)
Definition wait_call (rcv d : text) : text :=
  str "await " ++ rcv ++ str ".waitForTimeout(" ++ d ++ str ")".

Definition iframe_wait (rcv : text) : text :=
  str "await " ++ rcv ++
  str ".waitForSelector('#absmartly-sidebar-iframe', { state: 'attached', timeout: 5000 }).catch(() => {})".

Definition load_state_wait (rcv : text) : text :=
  str "await " ++ rcv ++
  str ".waitForLoadState('domcontentloaded', { timeout: 2000 }).catch(() => {})".

Definition ready_wait (rcv d : text) : text :=
  str "// TODO: Replace timeout with specific element wait" ++ [nl] ++
  str "    await " ++ rcv ++
  str ".waitForFunction(() => document.readyState === 'complete', { timeout: "
  ++ d ++ str " }).catch(() => {})".


Definition iframe_comment : text := str "// Wait for iframe to load".




Definition click_then_load_state_wait (b ind rcv : text) : text :=
  str "await " ++ b ++ str ".click()" ++ [nl] ++ ind
  ++ str "// Wait briefly for UI update" ++ [nl] ++ ind
  ++ load_state_wait rcv.

(** Characters that stand between [await ] and the closing parenthesis in
    every match of patterns 1 and 5. *)
Definition plain (c : ascii) : bool :=
  negb (Ascii.eqb c " ") && negb (Ascii.eqb c "/") && negb (Ascii.eqb c ",")
  && negb (Ascii.eqb c ")") && negb (Ascii.eqb c nl).

(** The form of the matches of patterns 1 and 5: [await ], plain
    characters, a closing parenthesis. *)
Definition tight (w : text) : Prop :=
  exists body, w = str "await " ++ body ++ [")"%char] /\ forallb plain body = true.

(** No end of [l], followed by whatever text, starts with [p]: each end
    differs from [p] at some place. *)
Fixpoint starts_nowhere (p l : text) : bool :=
  match l with
  | [] => true
  | _ :: l' => negb (startswith p l || startswith l p) && starts_nowhere p l'
  end.

(** Rule 2 rewrites no line of the text. *)
Definition rule2_idle (t : text) : Prop :=
  forall l, In l (split_lines t) -> fix2_line l = Some (l, 0).

(** No match of [Q] starts inside [E] when [E] is followed by [T]. *)
Definition no_start (Q : regex) (E T : text) : Prop :=
  forall S1 S2, E = S1 ++ S2 -> S2 <> [] -> match_at Q (S2 ++ T) = None.

(** A network-idle wait and what rule 1 makes of it; a line that is one
    [goto] call and what rule 2 makes of it. *)
Definition networkidle_wait (rcv : text) (q1 q2 : ascii) : text :=
  str "await " ++ rcv ++ str ".waitForLoadState(" ++ [q1] ++ str "networkidle"
  ++ [q2] ++ str ")".

Definition body_wait (rcv : text) : text :=
  str "await " ++ rcv ++ str ".waitForSelector('body', { timeout: 5000 })".

Definition goto_line (rcv arg : text) : text :=
  str "await " ++ rcv ++ str ".goto(" ++ arg ++ str ")".

Definition goto_with_options (rcv arg : text) : text :=
  str "await " ++ rcv ++ str ".goto(" ++ arg
  ++ str ", { waitUntil: \'domcontentloaded\', timeout: 10000 })".

(** Fix 2 as a whole, from [lines = content.split('\n')] to
    [content = '\n'.join(new_lines)], with the count before and after. *)
Definition fix2 (content : text) (changes : nat) : option (text * nat) :=
  '(new_lines, changes) <- fix2_loop (split_lines content) [] changes ;;
  Some (join_lines new_lines, changes).

(** What one turn of the loop of [main] adds to [total_changes] for the
    file at [p]: nothing when the file is skipped, else the count that
    [fix_file] returns for its contents. *)
Definition file_changes (fs : files) (p : string) : nat :=
  match fs p with
  | Some content =>
      if skipped content then 0
      else match rewrite content with Some (_, n) => n | None => 0 end
  | None => 0
  end.

(** ** Lemmas on the matcher *)

Lemma firstn_app_length (w s : text) :
  firstn (length (w ++ s) - length s) (w ++ s) = w.
Proof.
  rewrite length_app, Nat.add_sub.
  rewrite firstn_app, Nat.sub_diag, firstn_all. simpl. apply app_nil_r.
Qed.

Section RepLemmas.
Variable A : Type.
Variables (cs : cset) (k : text -> option A).

Lemma rep_greedy_sound lo s r :
  rep_greedy cs k lo s = Some r ->
  exists w s', s = w ++ s' /\ forallb (mem cs) w = true /\ lo <= length w
               /\ k s' = Some r.
Proof.
  revert lo. induction s as [|c s IH]; intros lo H; simpl in H.
  - destruct (Nat.eqb_spec lo 0); [|discriminate].
    exists [], []. subst. simpl. auto.
  - assert (Hk : (if lo =? 0 then k (c :: s) else None) = Some r ->
                 exists w s', c :: s = w ++ s' /\ forallb (mem cs) w = true
                              /\ lo <= length w /\ k s' = Some r).
    { destruct (Nat.eqb_spec lo 0); [|discriminate]. intros Hk.
      exists [], (c :: s). subst. simpl. auto. }
    destruct (mem cs c) eqn:Hc; [|auto].
    destruct (rep_greedy cs k (pred lo) s) as [r'|] eqn:Hr; [|auto].
    injection H as ->. destruct (IH _ Hr) as (w & s' & -> & Hw & Hlo & Hk').
    exists (c :: w), s'. simpl. rewrite Hc, Hw. repeat split; auto. lia.
Qed.

Lemma rep_lazy_sound lo s r :
  rep_lazy cs k lo s = Some r ->
  exists w s', s = w ++ s' /\ forallb (mem cs) w = true /\ lo <= length w
               /\ k s' = Some r.
Proof.
  revert lo. induction s as [|c s IH]; intros lo H; simpl in H.
  - destruct (Nat.eqb_spec lo 0); [|discriminate].
    exists [], []. subst. simpl. auto.
  - assert (Hrec : forall lo', mem cs c = true -> rep_lazy cs k lo' s = Some r ->
                   exists w s', c :: s = w ++ s' /\ forallb (mem cs) w = true
                                /\ S lo' <= length w /\ k s' = Some r).
    { intros lo' Hc Hr. destruct (IH _ Hr) as (w & s' & -> & Hw & Hlo & Hk').
      exists (c :: w), s'. simpl. rewrite Hc, Hw. repeat split; auto. lia. }
    destruct lo as [|lo].
    + destruct (k (c :: s)) as [r'|] eqn:Hk.
      * injection H as ->. exists [], (c :: s). simpl. auto with arith.
      * destruct (mem cs c) eqn:Hc; [|discriminate].
        destruct (Hrec 0 eq_refl H) as (w & s' & ? & ? & ? & ?).
        exists w, s'. repeat split; auto with arith.
    + destruct (mem cs c) eqn:Hc; [|discriminate]. auto.
Qed.

Lemma rep_greedy_complete lo w s' :
  forallb (mem cs) w = true -> lo <= length w -> k s' <> None ->
  rep_greedy cs k lo (w ++ s') <> None.
Proof.
  revert lo. induction w as [|c w IH]; intros lo Hw Hlo Hk; simpl in *.
  - assert (lo = 0) by lia. subst. destruct s'; simpl; auto.
    destruct (mem cs a); [|auto].
    destruct (rep_greedy cs k 0 s'); [discriminate|auto].
  - apply andb_prop in Hw as [Hc Hw]. rewrite Hc.
    specialize (IH (pred lo) Hw ltac:(lia) Hk).
    destruct (rep_greedy cs k (pred lo) (w ++ s')); [discriminate|congruence].
Qed.

Lemma rep_lazy_complete lo w s' :
  forallb (mem cs) w = true -> lo <= length w -> k s' <> None ->
  rep_lazy cs k lo (w ++ s') <> None.
Proof.
  revert lo. induction w as [|c w IH]; intros lo Hw Hlo Hk; simpl in *.
  - assert (lo = 0) by lia. subst. destruct s'; simpl; auto.
    destruct (k (a :: s')); [discriminate|congruence].
  - apply andb_prop in Hw as [Hc Hw]. rewrite Hc.
    destruct lo as [|lo].
    + destruct (k (c :: w ++ s')); [discriminate|].
      apply IH; auto with arith.
    + apply IH; auto with arith.
Qed.
End RepLemmas.

(** Soundness: a success of the matcher comes from a match of the pattern
    followed by a success of the continuation. *)
Lemma m_sound r : forall k s g res,
  m r k s g = Some res ->
  exists w s' g', s = w ++ s' /\ Match r w g g' /\ k s' g' = Some res.
Proof.
  induction r as [|c|cs|gr lo cs|n r IH|r1 IH1 r2 IH2]; intros k s g res H;
    simpl in H.
  - exists [], s, g. auto.
  - destruct s as [|x s]; [discriminate|].
    destruct (Ascii.eqb_spec x c); [|discriminate]. subst.
    exists [c], s, g. auto.
  - destruct s as [|x s]; [discriminate|].
    destruct (mem cs x) eqn:Hx; [|discriminate].
    exists [x], s, g. auto.
  - destruct gr.
    + apply rep_greedy_sound in H as (w & s' & -> & Hw & Hlo & Hk).
      exists w, s', g. auto.
    + apply rep_lazy_sound in H as (w & s' & -> & Hw & Hlo & Hk).
      exists w, s', g. auto.
  - apply IH in H as (w & s' & g' & -> & HM & Hk).
    rewrite firstn_app_length in Hk. exists w, s', ((n, w) :: g'). auto.
  - apply IH1 in H as (w1 & s1 & g1 & -> & HM1 & Hk).
    apply IH2 in Hk as (w2 & s2 & g2 & -> & HM2 & Hk).
    exists (w1 ++ w2), s2, g2. rewrite <- app_assoc. eauto.
Qed.

(** Completeness: where the pattern has a match after which the continuation
    succeeds, the matcher succeeds (on that match or on one it tries
    earlier). *)
Lemma m_complete r : forall k w s' g g',
  Match r w g g' -> k s' g' <> None -> m r k (w ++ s') g <> None.
Proof.
  induction r as [|c|cs|gr lo cs|n r IH|r1 IH1 r2 IH2]; intros k w s' g g' HM Hk;
    inversion HM; subst; simpl.
  - exact Hk.
  - rewrite Ascii.eqb_refl. exact Hk.
  - match goal with H : mem _ _ = true |- _ => rewrite H end. exact Hk.
  - destruct gr.
    + apply rep_greedy_complete; auto.
    + apply rep_lazy_complete; auto.
  - eapply IH; eauto. simpl. rewrite firstn_app_length. exact Hk.
  - rewrite <- app_assoc. eapply IH1; eauto.
Qed.

Lemma match_at_sound r s s' g :
  match_at r s = Some (s', g) -> exists w, s = w ++ s' /\ Match r w [] g.
Proof.
  unfold match_at. intros H.
  apply m_sound in H as (w & s1 & g1 & -> & HM & Hk).
  injection Hk as -> ->. eauto.
Qed.

Lemma match_at_complete r w s' g :
  Match r w [] g -> match_at r (w ++ s') <> None.
Proof.
  intros HM. unfold match_at. eapply m_complete; eauto. discriminate.
Qed.

Lemma has_match_occurs r t : has_match r t = true <-> occurs r t.
Proof.
  split.
  - induction t as [|c t IH]; simpl.
    + destruct (match_at r []) as [[s' g]|] eqn:H; [|discriminate]. intros _.
      apply match_at_sound in H as (w & Hw & HM).
      exists [], w, s', g. auto.
    + destruct (match_at r (c :: t)) as [[s' g]|] eqn:H.
      * intros _. apply match_at_sound in H as (w & Hw & HM).
        exists [], w, s', g. auto.
      * intros H'. destruct (IH H') as (pre & w & post & g & -> & HM).
        exists (c :: pre), w, post, g. auto.
  - intros (pre & w & post & g & -> & HM).
    induction pre as [|c pre IH]; simpl.
    + pose proof (match_at_complete _ _ post _ HM) as H.
      destruct (w ++ post); simpl; destruct (match_at r _); congruence.
    + destruct (match_at r (c :: pre ++ w ++ post)); auto.
Qed.

(** ** Lemmas on the text operations *)

Lemma text_eqb_refl (t : text) : text_eqb t t = true.
Proof. unfold text_eqb. destruct (list_eq_dec ascii_dec t t); congruence. Qed.

Lemma text_eqb_eq (a b : text) : text_eqb a b = true <-> a = b.
Proof.
  unfold text_eqb. destruct (list_eq_dec ascii_dec a b); split; congruence.
Qed.

Lemma split_lines_nonempty (s : text) : split_lines s <> [].
Proof.
  induction s as [|c s IH]; simpl; [discriminate|].
  destruct (Ascii.eqb c nl); [discriminate|].
  destruct (split_lines s); discriminate.
Qed.

(** ['\n'.join(s.split('\n')) == s] *)
Lemma join_split (s : text) : join_lines (split_lines s) = s.
Proof.
  induction s as [|c s IH]; simpl; [reflexivity|].
  destruct (Ascii.eqb_spec c nl) as [->|Hc].
  - pose proof (split_lines_nonempty s) as Hne.
    simpl. destruct (split_lines s); [congruence|]. now rewrite IH.
  - pose proof (split_lines_nonempty s) as Hne.
    destruct (split_lines s) as [|l ls]; [congruence|].
    destruct ls; simpl in *; now rewrite <- IH.
Qed.

Lemma startswith_app (p s : text) : startswith p (p ++ s) = true.
Proof.
  induction p as [|a p IH]; simpl; [reflexivity|].
  now rewrite Ascii.eqb_refl.
Qed.

Lemma startswith_spec (p s : text) :
  startswith p s = true <-> exists s', s = p ++ s'.
Proof.
  split.
  - revert s. induction p as [|a p IH]; intros s H; simpl in *; eauto.
    destruct s as [|b s]; [discriminate|].
    apply andb_prop in H as [Hab H]. apply Ascii.eqb_eq in Hab as ->.
    destruct (IH _ H) as [s' ->]. eauto.
  - intros [s' ->]. apply startswith_app.
Qed.

Lemma contains_unfold (p s : text) :
  contains p s =
  startswith p s || match s with [] => false | _ :: s' => contains p s' end.
Proof. destruct s; reflexivity. Qed.

Lemma contains_spec (p s : text) :
  contains p s = true <-> exists pre post, s = pre ++ p ++ post.
Proof.
  split.
  - induction s as [|c s IH]; simpl; intros H.
    + apply orb_prop in H as [H|H]; [|discriminate].
      apply startswith_spec in H as [s' ->]. now exists [], s'.
    + apply orb_prop in H as [H|H].
      * apply startswith_spec in H as [s' ->]. now exists [], s'.
      * destruct (IH H) as (pre & post & ->). now exists (c :: pre), post.
  - intros (pre & post & ->). induction pre as [|c pre IH]; simpl.
    + rewrite contains_unfold, startswith_app. reflexivity.
    + rewrite IH. apply orb_true_r.
Qed.

(** ** Lemmas on [scan], [subn] and the loop of Fix 2 *)

Lemma has_match_false_cons r c t :
  has_match r (c :: t) = false ->
  match_at r (c :: t) = None /\ has_match r t = false.
Proof.
  simpl. destruct (match_at r (c :: t)); [discriminate|auto].
Qed.

(** Where the pattern matches nowhere, [re.subn] copies the text. *)
Lemma scan_no_match r items s :
  has_match r s = false -> scan r items 0 s = (s, 0).
Proof.
  induction s as [|c s IH]; intros H.
  - simpl in *. destruct (match_at r []); [discriminate|reflexivity].
  - apply has_match_false_cons in H as [H1 H2].
    simpl. rewrite H1, (IH H2). reflexivity.
Qed.

Lemma subn_no_match r repl s :
  compile_template r repl <> None -> has_match r s = false ->
  subn r repl s = Some (s, 0).
Proof.
  unfold subn. intros Hc H. destruct (compile_template r repl); [|congruence].
  now rewrite scan_no_match.
Qed.

Lemma compile1 : compile_template pattern1 replacement1 <> None.
Proof. vm_compute. discriminate. Qed.

Lemma compile_goto : compile_template pattern_goto replacement_goto <> None.
Proof. vm_compute. discriminate. Qed.

Lemma compile3 : compile_template pattern3 replacement3 <> None.
Proof. vm_compute. discriminate. Qed.

Lemma compile4 : compile_template pattern4 replacement4 <> None.
Proof. vm_compute. discriminate. Qed.

Lemma compile5 : compile_template pattern5 replacement5 <> None.
Proof. vm_compute. discriminate. Qed.

Lemma subn_total r repl s :
  compile_template r repl <> None -> exists out n, subn r repl s = Some (out, n).
Proof.
  unfold subn. intros Hc. destruct (compile_template r repl); [|congruence].
  destruct (scan r l 0 s) as [out n]. eauto.
Qed.

Lemma fix2_loop_id lines : forall acc n,
  (forall l, In l lines -> fix2_line l = Some (l, 0)) ->
  fix2_loop lines acc n = Some (acc ++ lines, n).
Proof.
  induction lines as [|l lines IH]; intros acc n H; simpl.
  - now rewrite app_nil_r.
  - rewrite (H l (or_introl eq_refl)), IH by (intros; apply H; now right).
    now rewrite <- app_assoc, Nat.add_0_r.
Qed.

Lemma fix2_loop_total lines : forall acc n,
  (forall l, fix2_line l <> None) -> fix2_loop lines acc n <> None.
Proof.
  induction lines as [|l lines IH]; intros acc n H; simpl; [discriminate|].
  specialize (H l) as Hl. destruct (fix2_line l) as [[l' d]|]; [|congruence].
  now apply IH.
Qed.

(** [rewrite] is [apply_fixes] followed by the test [content != original]. *)
Lemma rewrite_eq t :
  rewrite t =
  match apply_fixes t with
  | Some (content, changes) =>
      if text_eqb content t then Some (t, 0) else Some (content, changes)
  | None => None
  end.
Proof.
  unfold rewrite, fix_file, write. simpl.
  destruct (apply_fixes t) as [[content changes]|]; [|reflexivity].
  destruct (text_eqb content t); reflexivity.
Qed.

(** ** Inverting matches of the script's patterns *)

Lemma Match_lits_inv l w g g' : Match (lits l) w g g' -> w = l /\ g' = g.
Proof.
  revert w g g'. induction l as [|c l IH]; intros w g g' H; simpl in H.
  - inversion H. auto.
  - inversion H as [| | | | |? ? ? ? ? ? ? H1 H2]; subst.
    inversion H1; subst. apply IH in H2 as [-> ->]. auto.
Qed.

Lemma Match_lit_inv l w g g' : Match (lit l) w g g' -> w = str l /\ g' = g.
Proof. apply Match_lits_inv. Qed.

Lemma Match_lits l g : Match (lits l) l g g.
Proof.
  induction l as [|c l IH]; simpl; [constructor|].
  change (c :: l) with ([c] ++ l). eauto.
Qed.

Ltac inv_match :=
  repeat match goal with
  | H : Match (Seq _ _) _ _ _ |- _ => inversion H; subst; clear H
  | H : Match (Grp _ _) _ _ _ |- _ => inversion H; subst; clear H
  | H : Match (Rep _ _ _) _ _ _ |- _ => inversion H; subst; clear H
  | H : Match (Cls _) _ _ _ |- _ => inversion H; subst; clear H
  | H : Match (Lit _) _ _ _ |- _ => inversion H; subst; clear H
  | H : Match (lit _) _ _ _ |- _ =>
      apply Match_lit_inv in H; destruct H as [? ?]; subst
  end.

Lemma pattern1_inv w g0 g :
  Match pattern1 w g0 g ->
  exists rcv q1 q2,
    w = str "await " ++ rcv ++ str ".waitForLoadState(" ++ [q1]
        ++ str "networkidle" ++ [q2] ++ str ")"
    /\ forallb isword rcv = true /\ 1 <= length rcv
    /\ mem quote_set q1 = true /\ mem quote_set q2 = true
    /\ g = (1, rcv) :: g0.
Proof.
  unfold pattern1. intros H. inv_match.
  eexists _, _, _. repeat split; eauto.
Qed.

Lemma pattern_goto_inv w g0 g :
  Match pattern_goto w g0 g ->
  exists rcv arg,
    w = str "await " ++ rcv ++ str ".goto(" ++ arg ++ str ")"
    /\ forallb isword rcv = true /\ 1 <= length rcv
    /\ forallb (mem (NoneOf [")"%char])) arg = true /\ 1 <= length arg
    /\ g = (2, arg) :: (1, rcv) :: g0.
Proof.
  unfold pattern_goto. intros H. inv_match.
  eexists _, _. repeat split; eauto.
Qed.

Lemma pattern5_inv w g0 g :
  Match pattern5 w g0 g ->
  exists rcv d,
    w = str "await " ++ rcv ++ str ".waitForTimeout(" ++ d ++ str ")"
    /\ forallb isword rcv = true /\ 1 <= length rcv
    /\ forallb isdigit d = true /\ 1 <= length d
    /\ g = (2, d) :: (1, rcv) :: g0.
Proof.
  unfold pattern5. intros H. inv_match.
  eexists _, _. repeat split; eauto.
Qed.

Lemma pattern3_inv w g0 g :
  Match pattern3 w g0 g ->
  exists c ws rcv d,
    w = (str "// Wait for iframe to load" ++ c ++ [nl] ++ ws)
        ++ str "await " ++ rcv ++ str ".waitForTimeout(" ++ d ++ str ")"
    /\ forallb isspace ws = true /\ 1 <= length ws
    /\ forallb isword rcv = true /\ 1 <= length rcv
    /\ forallb isdigit d = true /\ 1 <= length d
    /\ g = (2, rcv)
           :: (1, str "// Wait for iframe to load" ++ c ++ [nl] ++ ws) :: g0.
Proof.
  unfold pattern3. intros H. inv_match.
  eexists _, _, _, _. repeat split; eauto.
Qed.

Lemma pattern4_inv w g0 g :
  Match pattern4 w g0 g ->
  exists b s1 s2 rcv d,
    w = str "await " ++ b ++ str ".click()" ++ s1 ++ [nl] ++ s2
        ++ str "await " ++ rcv ++ str ".waitForTimeout(" ++ d ++ str ")"
    /\ forallb isword b = true /\ 1 <= length b
    /\ forallb isspace s1 = true
    /\ forallb isspace s2 = true /\ 1 <= length s2
    /\ forallb isword rcv = true /\ 1 <= length rcv
    /\ forallb isdigit d = true /\ 1 <= length d
    /\ g = (3, rcv) :: (2, s2) :: (1, b) :: g0.
Proof.
  unfold pattern4. intros H. inv_match.
  eexists _, _, _, _, _. repeat split; eauto.
Qed.

(** The converse: texts of these shapes are matches. *)
Ltac match_intro :=
  repeat first
    [ apply MSeq with (g1 := _)
    | eapply MSeq
    | apply MGrp
    | apply MLit
    | apply (Match_lits _)
    | (apply MRep; [assumption | assumption || lia]) ].

Lemma pattern5_intro rcv d g0 :
  forallb isword rcv = true -> 1 <= length rcv ->
  forallb isdigit d = true -> 1 <= length d ->
  Match pattern5 (str "await " ++ rcv ++ str ".waitForTimeout(" ++ d ++ str ")")
        g0 ((2, d) :: (1, rcv) :: g0).
Proof.
  intros. unfold pattern5, lit.
  eapply MSeq; [apply Match_lits|].
  eapply MSeq; [apply MGrp, MRep; assumption|].
  eapply MSeq; [apply Match_lits|].
  eapply MSeq; [apply MGrp, MRep; assumption|].
  apply Match_lits.
Qed.

Lemma match_at_unique r s s' g :
  (exists w, s = w ++ s' /\ Match r w [] g) ->
  (forall w2 s2 g2, s = w2 ++ s2 -> Match r w2 [] g2 -> s2 = s' /\ g2 = g) ->
  match_at r s = Some (s', g).
Proof.
  intros (w & -> & HM) Hu.
  pose proof (match_at_complete _ _ s' _ HM) as Hc.
  destruct (match_at r (w ++ s')) as [[s2 g2]|] eqn:E; [|congruence].
  apply match_at_sound in E as (w2 & E & HM2).
  destruct (Hu _ _ _ E HM2) as [-> ->]. reflexivity.
Qed.

Lemma search_sound r s g :
  search r s = Some g ->
  exists pre w post, s = pre ++ w ++ post /\ Match r w [] g.
Proof.
  induction s as [|c s IH]; simpl.
  - destruct (match_at r []) as [[s' g']|] eqn:H; [|discriminate].
    intros [= <-]. apply match_at_sound in H as (w & Hw & HM).
    exists [], w, s'. auto.
  - destruct (match_at r (c :: s)) as [[s' g']|] eqn:H.
    + intros [= <-]. apply match_at_sound in H as (w & Hw & HM).
      exists [], w, s'. auto.
    + intros H'. destruct (IH H') as (pre & w & post & -> & HM).
      exists (c :: pre), w, post. auto.
Qed.

(** The loop body of Fix 2 never raises: a match of the [goto] pattern
    always has its group 2, and the template compiles. *)
Lemma fix2_line_total line : fix2_line line <> None.
Proof.
  unfold fix2_line. destruct (goto_guard line); [|discriminate].
  destruct (search pattern_goto line) as [g|] eqn:Hs; [|discriminate].
  apply search_sound in Hs as (pre & w & post & _ & HM).
  apply pattern_goto_inv in HM as (rcv & arg & _ & _ & _ & _ & _ & ->).
  change (get_group 2 [(2, arg); (1, rcv)]) with (Some arg). cbv beta iota.
  destruct (count_char "," arg =? 0); [|discriminate].
  unfold sub. destruct (subn_total _ _ line compile_goto) as (out & n & ->).
  discriminate.
Qed.

(** A line without the trigger of rule 2 is left as it is. *)
Lemma fix2_line_noop line :
  ~ (goto_guard line = true /\ goto_call line) -> fix2_line line = Some (line, 0).
Proof.
  intros H. unfold fix2_line.
  destruct (goto_guard line) eqn:Hg; [|reflexivity].
  destruct (search pattern_goto line) as [g|] eqn:Hs; [|reflexivity].
  apply search_sound in Hs as (pre & w & post & -> & HM).
  pose proof HM as HM'.
  apply pattern_goto_inv in HM' as (rcv & arg & _ & _ & _ & _ & _ & ->).
  change (get_group 2 [(2, arg); (1, rcv)]) with (Some arg). cbv beta iota.
  destruct (Nat.eqb_spec (count_char "," arg) 0) as [E|]; auto.
  exfalso. apply H. split; [reflexivity|].
  exists pre, w, post, [(2, arg); (1, rcv)], arg. auto.
Qed.

(** The engine on a text where no rule finds anything. *)
Lemma rewrite_noop t :
  has_match pattern1 t = false ->
  (forall l, In l (split_lines t) -> fix2_line l = Some (l, 0)) ->
  has_match pattern3 t = false -> has_match pattern4 t = false ->
  has_match pattern5 t = false ->
  rewrite t = Some (t, 0).
Proof.
  intros H1 H2 H3 H4 H5. rewrite rewrite_eq. unfold apply_fixes.
  rewrite (subn_no_match _ _ _ compile1 H1).
  rewrite (fix2_loop_id _ _ _ H2). simpl app. rewrite join_split.
  rewrite (subn_no_match _ _ _ compile3 H3), (subn_no_match _ _ _ compile4 H4),
    (subn_no_match _ _ _ compile5 H5).
  now rewrite text_eqb_refl.
Qed.

Lemma not_occurs_has_match r t : ~ occurs r t -> has_match r t = false.
Proof.
  intros H. destruct (has_match r t) eqn:E; [|reflexivity].
  apply has_match_occurs in E. contradiction.
Qed.

(** ** The claims *)

Lemma split_lines_single (l : text) :
  ~ In nl l -> split_lines l = [l].
Proof.
  induction l as [|c l IH]; intros H; simpl; [reflexivity|].
  destruct (Ascii.eqb_spec c nl) as [->|_]; [exfalso; apply H; now left|].
  rewrite IH; [reflexivity|]. intros Hin. apply H. now right.
Qed.


(** C3.  On a text that holds none of the five trigger shapes the engine
    returns the text unchanged and a count of zero. *)
Theorem noop_on_clean_input (t : text) :
  trigger_free t -> rewrite t = Some (t, 0).
Proof.
  intros (H1 & H2 & H3 & H4 & H5).
  apply rewrite_noop; try (now apply not_occurs_has_match).
  intros l Hl. apply fix2_line_noop. intros [Hg Hc].
  apply H2. exists l. auto.
Qed.

Lemma noop_on_clean_input_witness :
  trigger_free (unlines ["const page = await ctx.newPage()"; "  await page.click('#go')"])
  /\ rewrite (unlines ["const page = await ctx.newPage()"; "  await page.click('#go')"])
     = Some (unlines ["const page = await ctx.newPage()"; "  await page.click('#go')"], 0).
Proof.
  assert (Hfree : trigger_free
            (unlines ["const page = await ctx.newPage()"; "  await page.click('#go')"])).
  { repeat split;
      try (intros H; apply has_match_occurs in H; vm_compute in H; discriminate).
    intros (line & Hin & Hg & _).
    vm_compute in Hin. destruct Hin as [<-|[<-|[]]]; vm_compute in Hg; discriminate. }
  split; [exact Hfree|]. apply (noop_on_clean_input _ Hfree).
Defined.

(** C9.  The engine is total: on every text it returns a text and a count;
    no step of the five fixes raises. *)
Theorem rewrite_total (t : text) : exists out n, rewrite t = Some (out, n).
Proof.
  rewrite rewrite_eq. unfold apply_fixes.
  destruct (subn_total _ _ t compile1) as (c1 & n1 & ->).
  pose proof (fix2_loop_total (split_lines c1) [] (0 + n1) fix2_line_total) as H2.
  destruct (fix2_loop (split_lines c1) [] (0 + n1)) as [[ls n2]|]; [|congruence].
  destruct (subn_total _ _ (join_lines ls) compile3) as (c3 & n3 & ->).
  destruct (subn_total _ _ c3 compile4) as (c4 & n4 & ->).
  destruct (subn_total _ _ c4 compile5) as (c5 & n5 & ->).
  destruct (text_eqb c5 t); eauto.
Qed.



(** C2.  The count is not the number of substitutions: on a line with two
    [goto] calls rule 2 rewrites both and adds one. *)
Theorem two_goto_substitutions_counted_once :
  rewrite (str "await a.goto(x); await b.goto(y)")
  = Some (str "await a.goto(x, { waitUntil: \'domcontentloaded\', timeout: 10000 }); await b.goto(y, { waitUntil: \'domcontentloaded\', timeout: 10000 })", 1)
  /\ substitutions (str "await a.goto(x); await b.goto(y)") = Some 2.
Proof. split; vm_compute; reflexivity. Qed.

(** The second [f.read()] on the same open file returns the empty string, so
    the test before [continue] only looks for [waitForTimeout]. *)
Lemma skipped_eq (t : text) :
  skipped t = negb (contains (str "waitForTimeout") t).
Proof.
  unfold skipped, read, open. cbn [pos data skipn].
  destruct (contains (str "waitForTimeout") t); cbn [negb]; [reflexivity|].
  rewrite skipn_all. reflexivity.
Qed.

(** C4.  A file that contains [networkidle] and not [waitForTimeout] is
    skipped by the pre-filter: [main] does not hand it to [fix_file]. *)
Theorem networkidle_file_is_skipped :
  contains (str "networkidle") (str "await page.waitForLoadState('networkidle')") = true
  /\ skipped (str "await page.waitForLoadState('networkidle')") = true
  /\ option_map fixed
       (main ["a.spec.ts"]
          (write (fun _ => None) "a.spec.ts"
             (str "await page.waitForLoadState('networkidle')")))
     = Some [].
Proof. repeat split; vm_compute; reflexivity. Qed.

(** C5.  On a single-argument [goto] call rule 2 adds the options argument
    and one to the count, but the text it writes keeps the backslashes of
    the raw-string template before the quotes; a call that already has an
    options object is left unchanged. *)
Theorem goto_options_written_with_backslashes :
  rewrite (str "await page.goto('https://x')")
  = Some (str "await page.goto('https://x', { waitUntil: \'domcontentloaded\', timeout: 10000 })", 1)
  /\ str "await page.goto('https://x', { waitUntil: \'domcontentloaded\', timeout: 10000 })"
     <> str "await page.goto('https://x', { waitUntil: 'domcontentloaded', timeout: 10000 })"
  /\ rewrite (str "await page.goto('https://x', { waitUntil: 'load' })")
     = Some (str "await page.goto('https://x', { waitUntil: 'load' })", 0).
Proof. repeat split; try (vm_compute; reflexivity). vm_compute. discriminate. Qed.

(** C1, as stated, fails: rule 5 breaks the line before the text that
    blocked rule 2, and the second pass rewrites the [goto] call. *)
Lemma idempotence_counterexample :
  ~ idempotent_on (str "await p.goto(u); await p.waitForTimeout(5), {").
Proof.
  intros H.
  specialize (H _ _ ltac:(vm_compute; reflexivity)).
  vm_compute in H. discriminate.
Qed.



(** ** Texts of a known shape *)

Lemma In_forallb_false (p : ascii -> bool) c l :
  forallb p l = true -> p c = false -> ~ In c l.
Proof.
  intros Hl Hc Hin. rewrite forallb_forall in Hl.
  rewrite (Hl _ Hin) in Hc. discriminate.
Qed.

(** A character that occurs once in a text splits it in one way only. *)
Lemma unique_occ (c : ascii) (A B X Y : text) :
  ~ In c A -> ~ In c B -> A ++ c :: B = X ++ c :: Y -> A = X /\ B = Y.
Proof.
  revert X. induction A as [|a A IH]; intros X HA HB E.
  - destruct X as [|x X]; simpl in E.
    + injection E as ->. auto.
    + injection E as -> ->. exfalso. apply HB. apply in_elt.
  - destruct X as [|x X]; simpl in E.
    + injection E as -> _. exfalso. apply HA. now left.
    + injection E as -> E. destruct (IH X) as [-> ->]; auto.
      intros H. apply HA. now right.
Qed.

(** Two runs of characters of a set, each followed by a character outside
    the set, that start at the same place are the same run. *)
Lemma span_unique (p : ascii -> bool) (a a' : text) c c' X Y :
  forallb p a = true -> forallb p a' = true -> p c = false -> p c' = false ->
  a ++ c :: X = a' ++ c' :: Y -> a = a' /\ c :: X = c' :: Y.
Proof.
  revert a'. induction a as [|x a IH]; intros a' Ha Ha' Hc Hc' E.
  - destruct a' as [|x' a']; simpl in *; [auto|].
    injection E as -> _. apply andb_prop in Ha' as [Hx _]. congruence.
  - destruct a' as [|x' a']; simpl in *.
    + injection E as -> _. apply andb_prop in Ha as [Hx _]. congruence.
    + injection E as -> E. apply andb_prop in Ha as [_ Ha].
      apply andb_prop in Ha' as [_ Ha'].
      destruct (IH a' Ha Ha' Hc Hc' E) as [-> ?]. auto.
Qed.

Ltac notin :=
  let H := fresh "H" in
  intros H; repeat (apply in_app_or in H; destruct H as [H|H]);
  first
    [ now (eapply In_forallb_false in H; [exact H | eassumption | reflexivity])
    | now (vm_compute in H; intuition discriminate) ].

Section WaitCall.
Variables rcv d : text.
Hypothesis Hrcv : forallb isword rcv = true.
Hypothesis Hd : forallb isdigit d = true.

Lemma wait_call_dot :
  wait_call rcv d
  = (str "await " ++ rcv) ++ "."%char :: (str "waitForTimeout(" ++ d ++ str ")").
Proof. unfold wait_call. now rewrite <- app_assoc. Qed.

Lemma wait_call_dot_unique X Y :
  wait_call rcv d = X ++ "."%char :: Y ->
  str "await " ++ rcv = X /\ str "waitForTimeout(" ++ d ++ str ")" = Y.
Proof.
  rewrite wait_call_dot. apply unique_occ; notin.
Qed.
End WaitCall.

(** Steps of [scan]. *)
Lemma scan_skip r items w : forall rest,
  scan r items (length w) (w ++ rest) = scan r items 0 rest.
Proof.
  induction w as [|c w IH]; intros rest; simpl; [reflexivity|apply IH].
Qed.

Lemma scan_at_match r items w rest g :
  w <> [] -> match_at r (w ++ rest) = Some (rest, g) ->
  scan r items 0 (w ++ rest)
  = (expand items g ++ fst (scan r items 0 rest), S (snd (scan r items 0 rest))).
Proof.
  intros Hw Hm. destruct w as [|c w]; [congruence|].
  simpl app in *. cbn [scan]. rewrite Hm.
  replace (length (c :: w ++ rest) - length rest) with (S (length w))
    by (change (c :: w ++ rest) with ((c :: w) ++ rest);
        rewrite length_app; cbn [length]; lia).
  cbn [pred Nat.eqb]. rewrite scan_skip.
  destruct (scan r items 0 rest). reflexivity.
Qed.

Lemma scan_at_no_match r items c s :
  match_at r (c :: s) = None ->
  scan r items 0 (c :: s)
  = (c :: fst (scan r items 0 s), snd (scan r items 0 s)).
Proof.
  intros Hm. cbn [scan]. rewrite Hm. destruct (scan r items 0 s). reflexivity.
Qed.

Lemma scan_nil r items : match_at r [] = None -> scan r items 0 [] = ([], 0).
Proof. intros H. simpl. now rewrite H. Qed.

Lemma compile1_eq : compile_template pattern1 replacement1 = Some items1.
Proof. vm_compute. reflexivity. Qed.
Lemma compile_goto_eq :
  compile_template pattern_goto replacement_goto = Some items_goto.
Proof. vm_compute. reflexivity. Qed.
Lemma compile3_eq : compile_template pattern3 replacement3 = Some items3.
Proof. vm_compute. reflexivity. Qed.
Lemma compile4_eq : compile_template pattern4 replacement4 = Some items4.
Proof. vm_compute. reflexivity. Qed.
Lemma compile5_eq : compile_template pattern5 replacement5 = Some items5.
Proof. vm_compute. reflexivity. Qed.

Ltac norm_app := rewrite <- ?app_assoc; cbn [app str list_ascii_of_string].

(** Texts up to the bracketing of [++]. *)
Ltac canon :=
  unfold wait_call, iframe_comment;
  rewrite <- ?app_assoc; cbn [app str list_ascii_of_string];
  rewrite <- ?app_assoc.

Section WaitCallRules.
Variables rcv d : text.
Hypothesis Hrcv : forallb isword rcv = true.
Hypothesis Hd : forallb isdigit d = true.
Hypothesis Hrcv1 : 1 <= length rcv.
Hypothesis Hd1 : 1 <= length d.

Lemma wait_call_no_pattern1 : ~ occurs pattern1 (wait_call rcv d).
Proof.
  intros (pre & w & post & g & E & HM).
  apply pattern1_inv in HM as (r1 & q1 & q2 & -> & _).
  assert (E' : wait_call rcv d = (pre ++ str "await " ++ r1)
            ++ "."%char :: (str "waitForLoadState(" ++ [q1] ++ str "networkidle"
                              ++ [q2] ++ str ")" ++ post)).
  { rewrite E. norm_app. reflexivity. }
  apply wait_call_dot_unique in E' as [_ E']; auto. discriminate.
Qed.

Lemma wait_call_no_goto : ~ goto_call (wait_call rcv d).
Proof.
  intros (pre & w & post & g & arg & E & HM & _).
  apply pattern_goto_inv in HM as (r1 & a1 & -> & _).
  assert (E' : wait_call rcv d = (pre ++ str "await " ++ r1)
            ++ "."%char :: (str "goto(" ++ a1 ++ str ")" ++ post)).
  { rewrite E. norm_app. reflexivity. }
  apply wait_call_dot_unique in E' as [_ E']; auto. discriminate.
Qed.

Lemma wait_call_no_pattern3 : ~ occurs pattern3 (wait_call rcv d).
Proof.
  intros (pre & w & post & g & E & HM).
  apply pattern3_inv in HM as (c & ws & r1 & d1 & -> & _).
  assert (Hin : In "/"%char (wait_call rcv d)).
  { rewrite E. apply in_or_app. right. apply in_or_app. left. now left. }
  revert Hin. unfold wait_call. notin.
Qed.

Lemma wait_call_no_pattern4 : ~ occurs pattern4 (wait_call rcv d).
Proof.
  intros (pre & w & post & g & E & HM).
  apply pattern4_inv in HM as (b & s1 & s2 & r1 & d1 & -> & _).
  assert (E' : wait_call rcv d = (pre ++ str "await " ++ b)
            ++ "."%char :: (str "click()" ++ s1 ++ [nl] ++ s2 ++ str "await "
                  ++ r1 ++ str ".waitForTimeout(" ++ d1 ++ str ")" ++ post)).
  { rewrite E. norm_app. reflexivity. }
  apply wait_call_dot_unique in E' as [_ E']; auto. discriminate.
Qed.

Lemma wait_call_no_nl : ~ In nl (wait_call rcv d).
Proof. unfold wait_call. notin. Qed.

(** Pattern 5 matches the whole call, with the receiver and the duration as
    its groups, and in no other way. *)
Lemma wait_call_match5 rest :
  match_at pattern5 (wait_call rcv d ++ rest) = Some (rest, [(2, d); (1, rcv)]).
Proof.
  apply match_at_unique.
  - exists (wait_call rcv d). split; [reflexivity|].
    now apply pattern5_intro.
  - intros w2 s2 g2 E HM.
    apply pattern5_inv in HM as (r1 & d1 & -> & Hr1 & _ & Hd1' & _ & ->).
    unfold wait_call in E. rewrite <- !app_assoc in E.
    apply app_inv_head in E.
    apply (span_unique isword) in E as [<- E]; auto.
    change (str ".waitForTimeout(" ++ ?x) with (str ".waitForTimeout(" ++ x) in E.
    apply (app_inv_head (str ".waitForTimeout(")) in E.
    apply (span_unique isdigit) in E as [<- E]; auto.
    injection E as <-. auto.
Qed.
Lemma wait_call_rule5 :
  subn pattern5 replacement5 (wait_call rcv d) = Some (ready_wait rcv d, 1).
Proof.
  unfold subn. rewrite compile5_eq. f_equal.
  rewrite <- (app_nil_r (wait_call rcv d)).
  rewrite (scan_at_match pattern5 items5 (wait_call rcv d) []
             [(2, d); (1, rcv)]);
    [|unfold wait_call; cbn; discriminate|apply wait_call_match5].
  rewrite scan_nil by reflexivity.
  cbn [fst snd]. rewrite app_nil_r.
  unfold items5, ready_wait. cbn. rewrite <- ?app_assoc. reflexivity.
Qed.

Lemma wait_call_rewrite : rewrite (wait_call rcv d) = Some (ready_wait rcv d, 1).
Proof.
  rewrite rewrite_eq. unfold apply_fixes.
  rewrite (subn_no_match _ _ _ compile1
             (not_occurs_has_match _ _ wait_call_no_pattern1)).
  rewrite (split_lines_single _ wait_call_no_nl).
  rewrite fix2_loop_id.
  2:{ intros l [<-|[]]. apply fix2_line_noop. intros [_ H].
      now apply wait_call_no_goto. }
  cbn [app join_lines].
  rewrite (subn_no_match _ _ _ compile3
             (not_occurs_has_match _ _ wait_call_no_pattern3)).
  rewrite (subn_no_match _ _ _ compile4
             (not_occurs_has_match _ _ wait_call_no_pattern4)).
  rewrite wait_call_rule5.
  destruct (text_eqb (ready_wait rcv d) (wait_call rcv d)) eqn:E; [|reflexivity].
  apply text_eqb_eq in E. discriminate.
Qed.
End WaitCallRules.

(** C8.  A wait call on its own, with receiver [rcv] and numeric duration
    [d], is replaced by rule 5: the review comment, then the wait for the
    document ready state whose timeout is [d] itself and whose failure is
    caught; the count is one. *)
Theorem standalone_wait_keeps_duration (rcv d : text) :
  forallb isword rcv = true -> 1 <= length rcv ->
  forallb isdigit d = true -> 1 <= length d ->
  rewrite (str "await " ++ rcv ++ str ".waitForTimeout(" ++ d ++ str ")")
  = Some (str "// TODO: Replace timeout with specific element wait" ++ [nl] ++
          str "    await " ++ rcv ++
          str ".waitForFunction(() => document.readyState === 'complete', { timeout: "
          ++ d ++ str " }).catch(() => {})", 1).
Proof.
  intros Hrcv Hrcv1 Hd Hd1. now apply wait_call_rewrite.
Qed.

Lemma standalone_wait_keeps_duration_witness :
  rewrite (str "await page.waitForTimeout(1000)")
  = Some (unlines ["// TODO: Replace timeout with specific element wait";
                   "    await page.waitForFunction(() => document.readyState === 'complete', { timeout: 1000 }).catch(() => {})"], 1).
Proof.
  apply (standalone_wait_keeps_duration (str "page") (str "1000"));
    first [reflexivity | vm_compute; lia].
Defined.

(** ** Rule 3 on a comment followed, at any distance, by an indented wait *)

(** The first character of a set in a text. *)
Lemma first_pocc (p : ascii -> bool) (A B X Y : text) c x :
  forallb (fun a => negb (p a)) A = true -> p c = true -> p x = true ->
  A ++ c :: B = X ++ x :: Y ->
  (A = X /\ c = x /\ B = Y) \/ exists X', X = A ++ c :: X'.
Proof.
  revert X. induction A as [|a A IH]; intros X HA Hc Hx E.
  - destruct X as [|x0 X]; simpl in E.
    + injection E as -> ->. now left.
    + injection E as -> _. right. now exists X.
  - simpl in HA. apply andb_prop in HA as [Ha HA].
    destruct X as [|x0 X]; simpl in E.
    + injection E as -> _. rewrite Hx in Ha. discriminate.
    + injection E as -> E. destruct (IH X HA Hc Hx E) as [(-> & -> & ->)|[X' ->]].
      * now left.
      * right. now exists X'.
Qed.

Lemma unique_pocc (p : ascii -> bool) (A B X Y : text) c x :
  forallb (fun a => negb (p a)) A = true ->
  forallb (fun a => negb (p a)) B = true -> p c = true -> p x = true ->
  A ++ c :: B = X ++ x :: Y -> A = X /\ B = Y.
Proof.
  intros HA HB Hc Hx E.
  destruct (first_pocc p _ _ _ _ _ _ HA Hc Hx E) as [(? & _ & ?)|[X' ->]];
    [auto|].
  rewrite <- app_assoc in E. apply app_inv_head in E. injection E as ->.
  rewrite forallb_app in HB. apply andb_prop in HB as [_ HB].
  simpl in HB. rewrite Hx in HB. discriminate.
Qed.












Section CommentContext.
Variables c ws rcv d rest : text.
Hypothesis Hc : contains (str "await ") c = false.
Hypothesis Hws : forallb isspace ws = true.
Hypothesis Hws1 : 1 <= length ws.
Hypothesis Hrcv : forallb isword rcv = true.
Hypothesis Hrcv1 : 1 <= length rcv.
Hypothesis Hd : forallb isdigit d = true.
Hypothesis Hd1 : 1 <= length d.

Let ctx : text := iframe_comment ++ c ++ [nl] ++ ws.





End CommentContext.



(** ** The engine on the two contextual shapes *)

Lemma first_occ_split (c : ascii) (A B X Y : text) :
  ~ In c A -> A ++ c :: B = X ++ c :: Y ->
  (X = A /\ Y = B) \/ exists X', X = A ++ c :: X' /\ B = X' ++ c :: Y.
Proof.
  revert X. induction A as [|a A IH]; intros X HA E.
  - destruct X as [|x X]; simpl in E.
    + injection E as ->. now left.
    + injection E as -> ->. right. now exists X.
  - destruct X as [|x X]; simpl in E.
    + injection E as -> _. exfalso. apply HA. now left.
    + injection E as -> E. destruct (IH X) as [[-> ->]|(X' & -> & ->)]; auto.
      * intros H. apply HA. now right.
      * right. now exists X'.
Qed.

Lemma in_join_lines (l : text) (ls : list text) :
  In l ls -> exists pre post, join_lines ls = pre ++ l ++ post.
Proof.
  induction ls as [|x ls IH]; [contradiction|]. intros [->|H].
  - destruct ls as [|y ls]; simpl.
    + exists [], []. now rewrite app_nil_r.
    + now exists [], (nl :: join_lines (y :: ls)).
  - destruct (IH H) as (pre & post & E).
    destruct ls as [|y ls]; [contradiction|].
    exists (x ++ nl :: pre), post.
    change (join_lines (x :: y :: ls)) with (x ++ nl :: join_lines (y :: ls)).
    rewrite E. now rewrite <- app_assoc.
Qed.

Lemma line_is_substring (t l : text) :
  In l (split_lines t) -> exists pre post, t = pre ++ l ++ post.
Proof.
  intros H. apply in_join_lines in H. now rewrite join_split in H.
Qed.

(** Where the [goto] pattern occurs nowhere in the text, rule 2 leaves
    every line as it is. *)
Lemma fix2_idle_no_goto (t : text) :
  ~ occurs pattern_goto t ->
  forall l, In l (split_lines t) -> fix2_line l = Some (l, 0).
Proof.
  intros Hno l Hl. apply fix2_line_noop.
  intros [_ (pre & w & post & g & arg & -> & HM & _)].
  apply line_is_substring in Hl as (pre0 & post0 & ->).
  apply Hno. exists (pre0 ++ pre), w, (post ++ post0), g.
  split; [now rewrite <- !app_assoc|exact HM].
Qed.

Lemma quote_cases q : mem quote_set q = true -> q = "'"%char \/ q = dquote.
Proof.
  unfold quote_set. simpl. rewrite orb_false_r.
  intros H. apply orb_prop in H as [H|H]; apply Ascii.eqb_eq in H; auto.
Qed.


(** Pattern 3 does not occur in a text without a slash. *)
Lemma no_pattern3_without_slash (t : text) :
  ~ In "/"%char t -> ~ occurs pattern3 t.
Proof.
  intros H (pre & w & post & g & -> & HM).
  apply pattern3_inv in HM as (c & ws & r1 & d1 & -> & _).
  apply H. apply in_or_app. right. apply in_or_app. left. now left.
Qed.

(** Every match of patterns 1, 2, 4 and 5 holds the method name after a
    dot. *)
Lemma occurs_pattern1_needle t :
  occurs pattern1 t -> contains (str ".waitForLoadState(") t = true.
Proof.
  intros (pre & w & post & g & -> & HM).
  apply pattern1_inv in HM as (r1 & q1 & q2 & -> & _).
  apply contains_spec. eexists (pre ++ str "await " ++ r1), _.
  rewrite <- !app_assoc. reflexivity.
Qed.

Lemma occurs_goto_needle t :
  occurs pattern_goto t -> contains (str ".goto(") t = true.
Proof.
  intros (pre & w & post & g & -> & HM).
  apply pattern_goto_inv in HM as (r1 & a1 & -> & _).
  apply contains_spec. eexists (pre ++ str "await " ++ r1), _.
  rewrite <- !app_assoc. reflexivity.
Qed.

Lemma occurs_pattern4_needle t :
  occurs pattern4 t -> contains (str ".click()") t = true.
Proof.
  intros (pre & w & post & g & -> & HM).
  apply pattern4_inv in HM as (b & s1 & s2 & r1 & d1 & -> & _).
  apply contains_spec. eexists (pre ++ str "await " ++ b), _.
  rewrite <- !app_assoc. reflexivity.
Qed.

Lemma occurs_pattern5_needle t :
  occurs pattern5 t -> contains (str ".waitForTimeout(") t = true.
Proof.
  intros (pre & w & post & g & -> & HM).
  apply pattern5_inv in HM as (r1 & d1 & -> & _).
  apply contains_spec. eexists (pre ++ str "await " ++ r1), _.
  rewrite <- !app_assoc. reflexivity.
Qed.

Lemma needle_free r p t :
  (occurs r t -> contains p t = true) -> contains p t = false -> ~ occurs r t.
Proof. intros H E Ho. rewrite (H Ho) in E. discriminate. Qed.

(** Looking for a text that starts with [c] in a text, [c] by [c]. *)
Lemma contains_nohead (c : ascii) (p A : text) :
  ~ In c A -> contains (c :: p) A = false.
Proof.
  intros H. destruct (contains (c :: p) A) eqn:E; [|reflexivity].
  apply contains_spec in E as (pre & post & ->).
  exfalso. apply H. apply in_or_app. right. now left.
Qed.

Lemma contains_step (c : ascii) (p A B : text) :
  ~ In c A -> startswith p B = false -> contains (c :: p) B = false ->
  contains (c :: p) (A ++ c :: B) = false.
Proof.
  intros HA Hs Hc. destruct (contains (c :: p) (A ++ c :: B)) eqn:E;
    [|reflexivity].
  apply contains_spec in E as (pre & post & E).
  change (pre ++ (c :: p) ++ post) with (pre ++ c :: (p ++ post)) in E.
  destruct (first_occ_split c A B pre (p ++ post) HA E)
    as [[_ E']|(X' & _ & E')].
  - rewrite <- E', startswith_app in Hs. discriminate.
  - rewrite (proj2 (contains_spec _ _)) in Hc; [discriminate|].
    now exists X', post.
Qed.

Ltac char_step ch A B :=
  match goal with
  | |- contains ?p ?T = false =>
      replace T with (A ++ ch :: B) by (canon; reflexivity);
      apply contains_step; [notin | reflexivity | ]
  end.
Ltac dot_step A B := char_step "."%char A B.

Section ClickContext.
Variables b ind rcv d : text.
Hypothesis Hb : forallb isword b = true.
Hypothesis Hb1 : 1 <= length b.
Hypothesis Hind : forallb isspace ind = true.
Hypothesis Hind1 : 1 <= length ind.
Hypothesis Hnl : ~ In nl ind.
Hypothesis Hrcv : forallb isword rcv = true.
Hypothesis Hrcv1 : 1 <= length rcv.
Hypothesis Hd : forallb isdigit d = true.
Hypothesis Hd1 : 1 <= length d.






End ClickContext.

Section CommentEngine.
Variables ind rcv d : text.
Hypothesis Hind : forallb isspace ind = true.
Hypothesis Hind1 : 1 <= length ind.
Hypothesis Hrcv : forallb isword rcv = true.
Hypothesis Hrcv1 : 1 <= length rcv.
Hypothesis Hd : forallb isdigit d = true.
Hypothesis Hd1 : 1 <= length d.






End CommentEngine.





(** ** What a pass leaves behind

    The rest of the development shows that the text produced by a pass holds
    no match of pattern 1 and none of pattern 5, so that on a second pass
    only rule 2 can rewrite anything. *)

Lemma m_lits_starts l k s g res :
  m (lits l) k s g = Some res -> startswith l s = true.
Proof.
  revert s. induction l as [|a l IH]; intros s H; simpl in *; [reflexivity|].
  destruct s as [|x s]; [discriminate|].
  destruct (Ascii.eqb_spec x a) as [->|]; [|discriminate].
  rewrite Ascii.eqb_refl. simpl. eauto.
Qed.

Lemma startswith_app_false (p s1 s2 z : text) :
  startswith p s1 = false -> startswith s1 p = false ->
  startswith p (s1 ++ z) = false.
Proof.
  revert s1. induction p as [|a p IH]; intros s1 H1 H2; [discriminate|].
  destruct s1 as [|b s1]; [discriminate|]. simpl in *.
  destruct (Ascii.eqb a b) eqn:E; [|reflexivity]. simpl in *.
  apply IH; [exact H1|].
  rewrite Ascii.eqb_sym, E in H2. exact H2.
Qed.

Lemma starts_nowhere_spec p l :
  starts_nowhere p l = true ->
  forall s1 s2 z, l = s1 ++ s2 -> s2 <> [] -> startswith p (s2 ++ z) = false.
Proof.
  induction l as [|c l IH]; intros H s1 s2 z E Hs2.
  - destruct s1, s2; try discriminate. congruence.
  - simpl in H. apply andb_prop in H as [H Hl].
    apply negb_true_iff, orb_false_iff in H as [H1 H2].
    destruct s1 as [|x s1]; simpl in E.
    + subst s2. now apply startswith_app_false.
    + injection E as _ E. eauto.
Qed.

Lemma has_match_app_false r (A B : text) :
  (forall s1 s2, A = s1 ++ s2 -> s2 <> [] -> match_at r (s2 ++ B) = None) ->
  has_match r B = false -> has_match r (A ++ B) = false.
Proof.
  induction A as [|a A IH]; intros HA HB; [exact HB|].
  pose proof (HA [] (a :: A) eq_refl ltac:(discriminate)) as H0.
  simpl in *. rewrite H0.
  apply IH; [|exact HB].
  intros s1 s2 -> Hs2. now apply (HA (a :: s1) s2).
Qed.

Lemma has_match_suffix r (A B : text) :
  has_match r (A ++ B) = false -> has_match r B = false.
Proof.
  induction A as [|a A IH]; [auto|]. simpl.
  destruct (match_at r (a :: A ++ B)); [discriminate|exact IH].
Qed.

Lemma has_match_false_head r (s : text) :
  has_match r s = false -> match_at r s = None.
Proof.
  destruct s; simpl; destruct (match_at r _); congruence.
Qed.

(** A match that is a beginning of a text is found at its head. *)
Lemma match_at_prefix r w g (rest : text) :
  Match r w [] g -> match_at r (w ++ rest) <> None.
Proof. apply match_at_complete. Qed.

Lemma forallb_impl (p q : ascii -> bool) (l : text) :
  (forall x, p x = true -> q x = true) -> forallb p l = true ->
  forallb q l = true.
Proof.
  intros H Hl. apply forallb_forall. intros x Hx.
  rewrite forallb_forall in Hl. auto.
Qed.

Lemma word_plain x : isword x = true -> plain x = true.
Proof. destruct x as [[] [] [] [] [] [] [] []]; vm_compute; congruence. Qed.

Lemma digit_plain x : isdigit x = true -> plain x = true.
Proof. destruct x as [[] [] [] [] [] [] [] []]; vm_compute; congruence. Qed.

Lemma plain_not_in (c : ascii) (body : text) :
  plain c = false -> forallb plain body = true -> ~ In c body.
Proof. intros Hc Hb. now apply (In_forallb_false plain). Qed.

Lemma tight_no_slash (w : text) : tight w -> ~ In "/"%char w.
Proof.
  intros (body & -> & Hb) H.
  apply in_app_or in H as [H|H]; [vm_compute in H; intuition discriminate|].
  apply in_app_or in H as [H|H].
  - now apply (plain_not_in "/" body).
  - vm_compute in H. intuition discriminate.
Qed.

(** A tight match does not begin before a replacement and end inside it or
    after it, when the replacement begins with a slash or with [await ]. *)
Lemma no_straddle (w G l rest E Z : text) :
  tight w -> w = G ++ l -> G <> [] -> l <> [] -> l ++ rest = E ++ Z ->
  (exists E', E = "/"%char :: E') \/ (exists E', E = str "await " ++ E') ->
  False.
Proof.
  intros Ht Ew HG Hl El [[E' ->]|[E' ->]].
  - destruct l as [|x l']; [congruence|]. injection El as -> _.
    apply (tight_no_slash _ Ht). rewrite Ew. apply in_elt.
  - destruct Ht as (body & Eb & Hb).
    rewrite <- app_assoc in El.
    apply app_eq_app in El as [x [[El _]|[El _]]].
    + (* [l] holds the whole of [await ]: a second space in the match *)
      rewrite El in Ew. rewrite Ew in Eb.
      assert (E2 : str "await" ++ " "%char :: (body ++ [")"%char])
                   = (G ++ str "await") ++ " "%char :: x).
      { rewrite <- app_assoc. exact (eq_sym Eb). }
      apply (unique_pocc (fun c => Ascii.eqb c " ")) in E2 as [E2 _];
        try reflexivity.
      * apply (f_equal (@length ascii)) in E2. rewrite length_app in E2.
        simpl in E2. destruct G; [congruence|simpl in E2; lia].
      * rewrite forallb_app. apply andb_true_intro. split; [|reflexivity].
        revert Hb. apply forallb_impl. intros c Hc. unfold plain in Hc.
        now destruct (Ascii.eqb c " ").
    + (* [l] is a beginning of [await ]: the match does not end with [)] *)
      destruct (exists_last Hl) as (l0 & y & ->).
      rewrite Ew in Eb. rewrite !app_assoc in Eb.
      apply app_inj_tail in Eb as [_ ->].
      assert (Hin : In ")"%char (str "await ")).
      { rewrite El. apply in_or_app. left. apply in_elt. }
      vm_compute in Hin. intuition discriminate.
Qed.

(** The text copied by [scan] before its first replacement. *)
Lemma scan_first r items (X : text) :
  exists G Y,
    X = G ++ Y
    /\ fst (scan r items 0 X) = G ++ fst (scan r items 0 Y)
    /\ (forall G1 G2, G = G1 ++ G2 -> G2 <> [] -> match_at r (G2 ++ Y) = None)
    /\ (Y = [] \/ exists Y' g, match_at r Y = Some (Y', g)).
Proof.
  induction X as [|c X IH].
  - exists [], []. repeat split; auto.
    intros G1 G2 E. destruct G1, G2; try discriminate. congruence.
  - destruct (match_at r (c :: X)) as [[Y' g]|] eqn:Hm.
    + exists [], (c :: X). repeat split; eauto.
      intros G1 G2 E. destruct G1, G2; try discriminate. congruence.
    + destruct IH as (G & Y & -> & Hout & Hgap & HY).
      exists (c :: G), Y. repeat split; auto.
      * rewrite (scan_at_no_match _ _ _ _ Hm). simpl. now rewrite Hout.
      * intros G1 G2 E HG2. destruct G1 as [|x G1]; simpl in E.
        -- subst G2. exact Hm.
        -- injection E as _ E. eauto.
Qed.

Section ScanFree.
Variables (r Q : regex) (items : list titem) (Good : text -> Prop).
Hypothesis Good_skip : forall W X, Good (W ++ X) -> Good X.
Hypothesis gap_free :
  forall X, Good X -> match_at r X = None -> match_at Q X = None.
Hypothesis Q_tight : forall w g, Match Q w [] g -> tight w.
Hypothesis r_nonempty :
  forall s s' g, match_at r s = Some (s', g) ->
                 exists W, W <> [] /\ s = W ++ s'.
Hypothesis r_nil : match_at r [] = None.
Hypothesis E_head :
  forall s s' g, match_at r s = Some (s', g) ->
    (exists E', expand items g = "/"%char :: E')
    \/ (exists E', expand items g = str "await " ++ E').
Hypothesis E_inside :
  forall s s' g, Good s -> match_at r s = Some (s', g) ->
    forall S1 S2 Z, expand items g = S1 ++ S2 -> S2 <> [] ->
                    match_at Q (S2 ++ Z) = None.

Lemma scan_free_aux n : forall X,
  length X <= n -> Good X -> has_match Q (fst (scan r items 0 X)) = false.
Proof.
  induction n as [|n IH]; intros X Hlen HX.
  - destruct X; [|simpl in Hlen; lia].
    rewrite scan_nil by exact r_nil. simpl.
    now rewrite (gap_free [] HX r_nil).
  - destruct (scan_first r items X) as (G & Y & -> & Hout & Hgap & HY).
    rewrite Hout.
    assert (HGY : Good Y) by exact (Good_skip _ _ HX).
    assert (Hb : has_match Q (fst (scan r items 0 Y)) = false).
    { destruct HY as [->|(Y' & g & Hm)].
      - rewrite scan_nil by exact r_nil. simpl.
        now rewrite (gap_free [] HGY r_nil).
      - destruct (r_nonempty _ _ _ Hm) as (W & HW & ->).
        rewrite (scan_at_match _ _ _ _ _ HW Hm). cbn [fst].
        apply has_match_app_false.
        + intros S1 S2 ES HS2. exact (E_inside _ _ _ HGY Hm S1 S2 _ ES HS2).
        + apply IH; [|exact (Good_skip _ _ HGY)].
          rewrite !length_app in Hlen. destruct W; [congruence|].
          simpl in Hlen. lia. }
    apply has_match_app_false; [|exact Hb].
    intros G1 G2 -> HG2.
    destruct (match_at Q (G2 ++ fst (scan r items 0 Y))) as [[rest g]|] eqn:Hm;
      [exfalso|reflexivity].
    apply match_at_sound in Hm as (w & Ew & HM).
    assert (Hgap2 : match_at Q (G2 ++ Y) = None).
    { apply gap_free; [|eapply Hgap; eauto].
      rewrite <- app_assoc in HX. exact (Good_skip _ _ HX). }
    apply app_eq_app in Ew as [l [[E1 E2]|[E1 E2]]].
    + rewrite E1, <- app_assoc in Hgap2.
      exact (match_at_complete _ _ _ _ HM Hgap2).
    + destruct l as [|x l].
      * rewrite app_nil_r in E1. rewrite <- E1 in Hgap2.
        exact (match_at_complete _ _ _ _ HM Hgap2).
      * destruct HY as [->|(Y' & g0 & Hm0)].
        -- rewrite scan_nil in E2 by exact r_nil. discriminate.
        -- destruct (r_nonempty _ _ _ Hm0) as (W & HW & ->).
           rewrite (scan_at_match _ _ _ _ _ HW Hm0) in E2. cbn [fst] in E2.
           exact (no_straddle w G2 (x :: l) rest _ _ (Q_tight _ _ HM) E1 HG2
                    ltac:(discriminate) (eq_sym E2) (E_head _ _ _ Hm0)).
Qed.

Lemma scan_free (X : text) :
  Good X -> has_match Q (fst (scan r items 0 X)) = false.
Proof. now apply (scan_free_aux (length X)). Qed.
End ScanFree.

(** *** Where a match can start inside a replacement *)

Lemma no_start_app Q (A B T : text) :
  no_start Q A (B ++ T) -> no_start Q B T -> no_start Q (A ++ B) T.
Proof.
  intros HA HB S1 S2 E HS2.
  apply app_eq_app in E as [l [[E1 E2]|[E1 E2]]].
  - destruct l as [|x l].
    + simpl in E2. subst S2. now apply (HB [] B).
    + rewrite E2, <- app_assoc. apply (HA S1 (x :: l)); [exact E1|discriminate].
  - now apply (HB l S2).
Qed.

Lemma no_start_nil Q (T : text) : no_start Q [] T.
Proof. intros S1 S2 E HS2. destruct S1, S2; try discriminate. congruence. Qed.

Section NoStart.
Variable Q : regex.
Hypothesis Q_await :
  forall s, startswith (str "await ") s = false -> match_at Q s = None.

(** A literal none of whose ends can begin [await ]. *)
Lemma no_start_lit (L T : text) :
  starts_nowhere (str "await ") L = true -> no_start Q L T.
Proof.
  intros H S1 S2 E HS2. apply Q_await.
  now apply (starts_nowhere_spec _ _ H S1 S2 T).
Qed.

(** A run of word characters followed by a dot. *)
Lemma no_start_word (v T : text) :
  forallb isword v = true -> no_start Q v ("."%char :: T).
Proof.
  intros Hv S1 S2 -> HS2. apply Q_await.
  destruct (startswith (str "await ") (S2 ++ "."%char :: T)) eqn:E;
    [exfalso|reflexivity].
  apply startswith_spec in E as [s' E].
  change (str "await " ++ s') with (str "await" ++ " "%char :: s') in E.
  rewrite forallb_app in Hv. apply andb_prop in Hv as [_ Hv].
  apply (span_unique isword) in E as [_ E]; auto. discriminate.
Qed.

(** A run of characters none of which is [a]. *)
Lemma no_start_run (p : ascii -> bool) (v T : text) :
  p "a"%char = false -> forallb p v = true -> no_start Q v T.
Proof.
  intros Hp Hv S1 S2 -> HS2. apply Q_await.
  destruct S2 as [|x S2]; [congruence|].
  rewrite forallb_app in Hv. apply andb_prop in Hv as [_ Hv].
  simpl in Hv. apply andb_prop in Hv as [Hx _].
  change (startswith (str "await ") ((x :: S2) ++ T))
    with (Ascii.eqb "a" x && startswith (str "wait ") (S2 ++ T)).
  destruct (Ascii.eqb_spec "a"%char x) as [<-|]; [congruence|reflexivity].
Qed.
End NoStart.

Lemma lit_await_starts r2 s :
  startswith (str "await ") s = false ->
  match_at (Seq (lit "await ") r2) s = None.
Proof.
  intros H. unfold match_at. cbn [m].
  destruct (m (lit "await ") _ s []) eqn:E; [|reflexivity].
  apply m_lits_starts in E. congruence.
Qed.

Lemma pattern1_await s :
  startswith (str "await ") s = false -> match_at pattern1 s = None.
Proof. apply lit_await_starts. Qed.

Lemma pattern5_await s :
  startswith (str "await ") s = false -> match_at pattern5 s = None.
Proof. apply lit_await_starts. Qed.

Lemma pattern1_tight w g : Match pattern1 w [] g -> tight w.
Proof.
  intros HM.
  apply pattern1_inv in HM as (r1 & q1 & q2 & -> & Hr & _ & Hq1 & Hq2 & _).
  exists (r1 ++ str ".waitForLoadState(" ++ [q1] ++ str "networkidle" ++ [q2]).
  split; [now rewrite <- !app_assoc|].
  rewrite !forallb_app.
  destruct (quote_cases _ Hq1) as [->| ->];
    destruct (quote_cases _ Hq2) as [->| ->];
    repeat (apply andb_true_intro; split); try reflexivity;
    revert Hr; apply forallb_impl, word_plain.
Qed.

Lemma pattern5_tight w g : Match pattern5 w [] g -> tight w.
Proof.
  intros HM. apply pattern5_inv in HM as (r1 & d1 & -> & Hr & _ & Hd & _).
  exists (r1 ++ str ".waitForTimeout(" ++ d1).
  split; [now rewrite <- !app_assoc|].
  rewrite !forallb_app. repeat (apply andb_true_intro; split); try reflexivity.
  - revert Hr. apply forallb_impl, word_plain.
  - revert Hd. apply forallb_impl, digit_plain.
Qed.

(** Pattern 1 and pattern 5 at [await], a receiver, a dot and a method that
    is not theirs. *)
Lemma pattern1_not_at (rcv L : text) :
  forallb isword rcv = true ->
  (forall q1 rest, str "waitForLoadState(" ++ q1 :: str "networkidle" ++ rest
                   <> L) ->
  match_at pattern1 (str "await " ++ rcv ++ "."%char :: L) = None.
Proof.
  intros Hr HL.
  destruct (match_at pattern1 (str "await " ++ rcv ++ "."%char :: L))
    as [[s' g]|] eqn:E; [exfalso|reflexivity].
  apply match_at_sound in E as (w & E & HM).
  apply pattern1_inv in HM as (r1 & q1 & q2 & -> & Hr1 & _).
  rewrite <- !app_assoc in E. apply app_inv_head in E.
  apply (span_unique isword) in E as [_ E]; auto.
  injection E as E.
  apply (HL q1 ([q2] ++ str ")" ++ s')). symmetry. exact E.
Qed.

Lemma pattern5_not_at (rcv L : text) :
  forallb isword rcv = true ->
  (forall rest, str "waitForTimeout(" ++ rest <> L) ->
  match_at pattern5 (str "await " ++ rcv ++ "."%char :: L) = None.
Proof.
  intros Hr HL.
  destruct (match_at pattern5 (str "await " ++ rcv ++ "."%char :: L))
    as [[s' g]|] eqn:E; [exfalso|reflexivity].
  apply match_at_sound in E as (w & E & HM).
  apply pattern5_inv in HM as (r1 & d1 & -> & Hr1 & _).
  rewrite <- !app_assoc in E. apply app_inv_head in E.
  apply (span_unique isword) in E as [_ E]; auto.
  injection E as E.
  apply (HL (d1 ++ str ")" ++ s')). symmetry. exact E.
Qed.

Lemma no_start_single Q (a : ascii) (T : text) :
  match_at Q (a :: T) = None -> no_start Q [a] T.
Proof.
  intros H S1 S2 E HS2. destruct S1 as [|x S1].
  - simpl in E. now subst S2.
  - injection E as _ E. destruct S1, S2; try discriminate. congruence.
Qed.

(** *** Rule 5 leaves no match of its own pattern *)

Lemma match5_shape s s' g :
  match_at pattern5 s = Some (s', g) ->
  exists rcv d,
    s = wait_call rcv d ++ s' /\ forallb isword rcv = true
    /\ forallb isdigit d = true /\ g = [(2, d); (1, rcv)].
Proof.
  intros H. apply match_at_sound in H as (w & -> & HM).
  apply pattern5_inv in HM as (rcv & d & -> & Hr & _ & Hd & _ & ->).
  now exists rcv, d.
Qed.

Lemma expand5 rcv d : expand items5 [(2, d); (1, rcv)] = ready_wait rcv d.
Proof.
  unfold items5, ready_wait. cbn [expand get_group Nat.eqb]. canon.
  reflexivity.
Qed.

Lemma ready_wait_no_start5 rcv d Z :
  forallb isword rcv = true -> forallb isdigit d = true ->
  no_start pattern5 (ready_wait rcv d) Z.
Proof.
  intros Hr Hd.
  replace (ready_wait rcv d)
    with ((str "// TODO: Replace timeout with specific element wait" ++ [nl]
           ++ str "    ")
          ++ ["a"%char] ++ str "wait " ++ rcv
          ++ str ".waitForFunction(() => document.readyState === 'complete', { timeout: "
          ++ d ++ str " }).catch(() => {})")
    by (unfold ready_wait; canon; reflexivity).
  apply no_start_app; [now apply (no_start_lit _ pattern5_await)|].
  apply no_start_app.
  { apply no_start_single. rewrite <- !app_assoc.
    apply (pattern5_not_at rcv); [exact Hr|]. intros rest. discriminate. }
  apply no_start_app; [now apply (no_start_lit _ pattern5_await)|].
  apply no_start_app; [now apply (no_start_word _ pattern5_await)|].
  apply no_start_app; [now apply (no_start_lit _ pattern5_await)|].
  apply no_start_app; [now apply (no_start_run _ pattern5_await isdigit)|].
  now apply (no_start_lit _ pattern5_await).
Qed.

Lemma rule5_kills (X : text) :
  has_match pattern5 (fst (scan pattern5 items5 0 X)) = false.
Proof.
  apply (scan_free pattern5 pattern5 items5 (fun _ => True)); auto.
  - intros w g. apply pattern5_tight.
  - intros s s' g H. apply match5_shape in H as (rcv & d & -> & _).
    exists (wait_call rcv d). split; [discriminate|reflexivity].
  - intros s s' g H. apply match5_shape in H as (rcv & d & _ & _ & _ & ->).
    left. rewrite expand5. now eexists.
  - intros s s' g _ H S1 S2 Z E HS2.
    apply match5_shape in H as (rcv & d & _ & Hr & Hd & ->).
    rewrite expand5 in E. exact (ready_wait_no_start5 rcv d Z Hr Hd S1 S2 E HS2).
Qed.

(** *** Rule 1 leaves no match of its own pattern *)

Lemma match1_shape s s' g :
  match_at pattern1 s = Some (s', g) ->
  exists rcv, s <> s' /\ forallb isword rcv = true /\ g = [(1, rcv)].
Proof.
  intros H. apply match_at_sound in H as (w & -> & HM).
  apply pattern1_inv in HM as (rcv & q1 & q2 & -> & Hr & _ & _ & _ & ->).
  exists rcv. repeat split; auto.
  intros E. apply (f_equal (@length ascii)) in E.
  rewrite !length_app in E. simpl in E. lia.
Qed.

Lemma nonempty_prefix (s s' w : text) : s = w ++ s' -> s <> s' -> w <> [].
Proof. intros -> H ->. now apply H. Qed.

Lemma expand1 rcv :
  expand items1 [(1, rcv)]
  = str "await " ++ rcv ++ str ".waitForSelector('body', { timeout: 5000 })".
Proof. reflexivity. Qed.

Lemma selector_wait_no_start1 rcv (L Z : text) :
  forallb isword rcv = true ->
  starts_nowhere (str "await ") ("."%char :: L) = true ->
  (forall q1 rest, str "waitForLoadState(" ++ q1 :: str "networkidle" ++ rest
                   <> L ++ Z) ->
  no_start pattern1 (str "await " ++ rcv ++ "."%char :: L) Z.
Proof.
  intros Hr HL Hne.
  change (str "await " ++ rcv ++ "."%char :: L)
    with (["a"%char] ++ str "wait " ++ rcv ++ "."%char :: L).
  apply no_start_app.
  { apply no_start_single. rewrite <- !app_assoc.
    now apply (pattern1_not_at rcv (L ++ Z)). }
  apply no_start_app; [now apply (no_start_lit _ pattern1_await)|].
  apply no_start_app; [now apply (no_start_word _ pattern1_await)|].
  now apply (no_start_lit _ pattern1_await).
Qed.

Lemma rule1_kills (X : text) :
  has_match pattern1 (fst (scan pattern1 items1 0 X)) = false.
Proof.
  apply (scan_free pattern1 pattern1 items1 (fun _ => True)); auto.
  - intros w g. apply pattern1_tight.
  - intros s s' g H. pose proof H as H'.
    apply match1_shape in H as (rcv & Hne & _).
    apply match_at_sound in H' as (w & E & _).
    exists w. split; [exact (nonempty_prefix _ _ _ E Hne)|exact E].
  - intros s s' g H. apply match1_shape in H as (rcv & _ & _ & ->).
    right. rewrite expand1. now eexists.
  - intros s s' g _ H S1 S2 Z E HS2.
    apply match1_shape in H as (rcv & _ & Hr & ->).
    rewrite expand1 in E.
    refine (selector_wait_no_start1 rcv _ Z Hr _ _ S1 S2 E HS2);
      [reflexivity|]. intros q1 rest. discriminate.
Qed.

(** *** Parts of a replacement that are copied from the text *)

Lemma tight_split (w : text) :
  tight w ->
  exists w0, w = w0 ++ [")"%char]
    /\ forallb (fun c => negb (Ascii.eqb c "," || Ascii.eqb c ")")) w0 = true.
Proof.
  intros (body & -> & Hb). exists (str "await " ++ body).
  split; [now rewrite <- app_assoc|].
  rewrite forallb_app. apply andb_true_intro. split; [reflexivity|].
  revert Hb. apply forallb_impl. intros c.
  destruct c as [[] [] [] [] [] [] [] []]; vm_compute; congruence.
Qed.

(** The argument of a [goto] call, copied before the inserted comma: a
    tight match ends with a parenthesis, which the argument does not hold,
    and holds no comma. *)
Lemma no_start_before_comma Q (arg T : text) :
  (forall w g, Match Q w [] g -> tight w) ->
  forallb (mem (NoneOf [")"%char])) arg = true ->
  no_start Q arg (","%char :: T).
Proof.
  intros HQ Harg S1 S2 -> HS2.
  destruct (match_at Q (S2 ++ ","%char :: T)) as [[rest g]|] eqn:E;
    [exfalso|reflexivity].
  apply match_at_sound in E as (w & E & HM).
  destruct (tight_split _ (HQ _ _ HM)) as (w0 & -> & Hw0).
  rewrite <- app_assoc in E. symmetry in E.
  apply (first_pocc (fun c => Ascii.eqb c "," || Ascii.eqb c ")")) in E
    as [(_ & E & _)|[X' ->]]; try reflexivity; try assumption.
  - discriminate.
  - rewrite !forallb_app in Harg.
    apply andb_prop in Harg as [_ Harg]. apply andb_prop in Harg as [_ Harg].
    simpl in Harg. discriminate.
Qed.

(** A part of the matched text copied in front of [await ]: a tight match
    that starts in it either lies in it, and then was in the text, or runs
    into [await ]. *)
Lemma no_start_copy Q (G R T : text) :
  (forall w g, Match Q w [] g -> tight w) ->
  has_match Q (G ++ R) = false ->
  no_start Q G (str "await " ++ T).
Proof.
  intros HQ Hfree S1 S2 -> HS2.
  destruct (match_at Q (S2 ++ str "await " ++ T)) as [[rest g]|] eqn:E;
    [exfalso|reflexivity].
  apply match_at_sound in E as (w & E & HM).
  assert (Hin : forall l, S2 = w ++ l -> False).
  { intros l ->. rewrite <- !app_assoc in Hfree.
    apply has_match_suffix, has_match_false_head in Hfree.
    exact (match_at_complete _ _ _ _ HM Hfree). }
  apply app_eq_app in E as [l [[E1 E2]|[E1 E2]]]; [now apply (Hin l)|].
  destruct l as [|x l];
    [apply (Hin []); rewrite E1, !app_nil_r; reflexivity|].
  apply (no_straddle w S2 (x :: l) rest (str "await " ++ T) []);
    auto; try discriminate.
  - apply HQ with g. exact HM.
  - now rewrite app_nil_r.
  - right. now eexists.
Qed.

(** *** Rules 2 to 5 bring no match of pattern 1 *)

Lemma match_goto_shape s s' g :
  match_at pattern_goto s = Some (s', g) ->
  exists rcv arg,
    s = (str "await " ++ rcv ++ str ".goto(" ++ arg ++ str ")") ++ s'
    /\ forallb isword rcv = true
    /\ forallb (mem (NoneOf [")"%char])) arg = true
    /\ g = [(2, arg); (1, rcv)].
Proof.
  intros H. apply match_at_sound in H as (w & -> & HM).
  apply pattern_goto_inv in HM as (rcv & arg & -> & Hr & _ & Ha & _ & ->).
  now exists rcv, arg.
Qed.

Lemma match3_shape s s' g :
  match_at pattern3 s = Some (s', g) ->
  exists c ws rcv d,
    s = (iframe_comment ++ c ++ [nl] ++ ws) ++ wait_call rcv d ++ s'
    /\ forallb isword rcv = true
    /\ g = [(2, rcv); (1, iframe_comment ++ c ++ [nl] ++ ws)].
Proof.
  intros H. apply match_at_sound in H as (w & -> & HM).
  apply pattern3_inv in HM as (c & ws & rcv & d & -> & _ & _ & Hr & _ & _ & _ & ->).
  exists c, ws, rcv, d. repeat split; auto.
  unfold wait_call, iframe_comment. now rewrite <- !app_assoc.
Qed.

Lemma match4_shape s s' g :
  match_at pattern4 s = Some (s', g) ->
  exists b s2 rcv W,
    s = (str "await " ++ W) ++ s'
    /\ forallb isword b = true /\ forallb isspace s2 = true
    /\ forallb isword rcv = true
    /\ g = [(3, rcv); (2, s2); (1, b)].
Proof.
  intros H. apply match_at_sound in H as (w & -> & HM).
  apply pattern4_inv in HM
    as (b & s1 & s2 & rcv & d & -> & Hb & _ & _ & Hs2 & _ & Hr & _ & _ & _ & ->).
  exists b, s2, rcv. eexists. repeat split; eauto.
Qed.

Lemma expand_goto rcv arg :
  expand items_goto [(2, arg); (1, rcv)]
  = str "await " ++ rcv ++ str ".goto(" ++ arg
    ++ str ", { waitUntil: \'domcontentloaded\', timeout: 10000 })".
Proof.
  unfold items_goto. cbn [expand get_group Nat.eqb]. canon. reflexivity.
Qed.

Lemma expand3 rcv ctx :
  expand items3 [(2, rcv); (1, ctx)] = ctx ++ iframe_wait rcv.
Proof.
  unfold items3, iframe_wait. cbn [expand get_group Nat.eqb]. canon.
  reflexivity.
Qed.

Lemma expand4 b s2 rcv :
  expand items4 [(3, rcv); (2, s2); (1, b)]
  = click_then_load_state_wait b s2 rcv.
Proof.
  unfold items4, click_then_load_state_wait, load_state_wait.
  cbn [expand get_group Nat.eqb]. canon. reflexivity.
Qed.

Section KeepsPattern1.
Variables (r : regex) (items : list titem).
Hypothesis r_nonempty :
  forall s s' g, match_at r s = Some (s', g) ->
                 exists W, W <> [] /\ s = W ++ s'.
Hypothesis r_nil : match_at r [] = None.
Hypothesis E_head :
  forall s s' g, match_at r s = Some (s', g) ->
    (exists E', expand items g = "/"%char :: E')
    \/ (exists E', expand items g = str "await " ++ E').
Hypothesis E_inside :
  forall s s' g, has_match pattern1 s = false -> match_at r s = Some (s', g) ->
    forall Z, no_start pattern1 (expand items g) Z.

Lemma keeps_pattern1 (X : text) :
  has_match pattern1 X = false ->
  has_match pattern1 (fst (scan r items 0 X)) = false.
Proof.
  apply (scan_free r pattern1 items (fun X => has_match pattern1 X = false));
    auto.
  - intros W Y. apply has_match_suffix.
  - intros Y H _. now apply has_match_false_head.
  - intros w g. apply pattern1_tight.
  - intros s s' g Hs Hm S1 S2 Z. exact (E_inside s s' g Hs Hm Z S1 S2).
Qed.
End KeepsPattern1.

Lemma rule5_keeps_pattern1 (X : text) :
  has_match pattern1 X = false ->
  has_match pattern1 (fst (scan pattern5 items5 0 X)) = false.
Proof.
  apply keeps_pattern1; auto.
  - intros s s' g H. apply match5_shape in H as (rcv & d & -> & _).
    exists (wait_call rcv d). split; [discriminate|reflexivity].
  - intros s s' g H. apply match5_shape in H as (rcv & d & _ & _ & _ & ->).
    left. rewrite expand5. now eexists.
  - intros s s' g _ H Z.
    apply match5_shape in H as (rcv & d & _ & Hr & Hd & ->).
    rewrite expand5.
    replace (ready_wait rcv d)
      with ((str "// TODO: Replace timeout with specific element wait" ++ [nl]
             ++ str "    ")
            ++ (str "await " ++ rcv ++ "."%char
                  :: str "waitForFunction(() => document.readyState === 'complete', { timeout: ")
            ++ d ++ str " }).catch(() => {})")
      by (unfold ready_wait; canon; reflexivity).
    apply no_start_app; [now apply (no_start_lit _ pattern1_await)|].
    apply no_start_app.
    { apply selector_wait_no_start1; [exact Hr|reflexivity|].
      intros q1 rest. discriminate. }
    apply no_start_app; [now apply (no_start_run _ pattern1_await isdigit)|].
    now apply (no_start_lit _ pattern1_await).
Qed.

Lemma rule4_keeps_pattern1 (X : text) :
  has_match pattern1 X = false ->
  has_match pattern1 (fst (scan pattern4 items4 0 X)) = false.
Proof.
  apply keeps_pattern1; auto.
  - intros s s' g H. apply match4_shape in H as (b & s2 & rcv & W & -> & _).
    exists (str "await " ++ W). split; [discriminate|reflexivity].
  - intros s s' g H.
    apply match4_shape in H as (b & s2 & rcv & W & _ & _ & _ & _ & ->).
    right. rewrite expand4. now eexists.
  - intros s s' g _ H Z.
    apply match4_shape in H as (b & s2 & rcv & W & _ & Hb & Hs2 & Hr & ->).
    rewrite expand4.
    replace (click_then_load_state_wait b s2 rcv)
      with ((str "await " ++ b ++ "."%char :: (str "click()" ++ [nl]))
            ++ s2 ++ (str "// Wait briefly for UI update" ++ [nl]) ++ s2
            ++ (str "await " ++ rcv ++ "."%char
                  :: str "waitForLoadState('domcontentloaded', { timeout: 2000 }).catch(() => {})"))
      by (unfold click_then_load_state_wait, load_state_wait; canon;
          reflexivity).
    apply no_start_app.
    { apply selector_wait_no_start1; [exact Hb|reflexivity|].
      intros q1 rest. discriminate. }
    apply no_start_app; [now apply (no_start_run _ pattern1_await isspace)|].
    apply no_start_app; [now apply (no_start_lit _ pattern1_await)|].
    apply no_start_app; [now apply (no_start_run _ pattern1_await isspace)|].
    apply selector_wait_no_start1; [exact Hr|reflexivity|].
    intros q1 rest. discriminate.
Qed.

Lemma rule3_keeps_pattern1 (X : text) :
  has_match pattern1 X = false ->
  has_match pattern1 (fst (scan pattern3 items3 0 X)) = false.
Proof.
  apply keeps_pattern1; auto.
  - intros s s' g H. apply match3_shape in H as (c & ws & rcv & d & -> & _).
    exists ((iframe_comment ++ c ++ [nl] ++ ws) ++ wait_call rcv d).
    split; [discriminate|now rewrite (app_assoc _ (wait_call rcv d) s')].
  - intros s s' g H.
    apply match3_shape in H as (c & ws & rcv & d & _ & _ & ->).
    left. rewrite expand3. now eexists.
  - intros s s' g Hs H Z.
    apply match3_shape in H as (c & ws & rcv & d & -> & Hr & ->).
    rewrite expand3.
    apply no_start_app.
    + replace (iframe_wait rcv ++ Z)
        with (str "await " ++ (rcv ++ str ".waitForSelector('#absmartly-sidebar-iframe', { state: 'attached', timeout: 5000 }).catch(() => {})") ++ Z)
        by (unfold iframe_wait; now rewrite <- !app_assoc).
      apply (no_start_copy pattern1 _ (wait_call rcv d ++ s')).
      * apply pattern1_tight.
      * exact Hs.
    + apply (selector_wait_no_start1 rcv
               (str "waitForSelector('#absmartly-sidebar-iframe', { state: 'attached', timeout: 5000 }).catch(() => {})"));
        [exact Hr|reflexivity|].
      intros q1 rest. discriminate.
Qed.

Lemma goto_keeps_pattern1 (X : text) :
  has_match pattern1 X = false ->
  has_match pattern1 (fst (scan pattern_goto items_goto 0 X)) = false.
Proof.
  apply keeps_pattern1; auto.
  - intros s s' g H. apply match_goto_shape in H as (rcv & arg & -> & _).
    eexists. split; [|reflexivity]. discriminate.
  - intros s s' g H.
    apply match_goto_shape in H as (rcv & arg & _ & _ & _ & ->).
    right. rewrite expand_goto. now eexists.
  - intros s s' g _ H Z.
    apply match_goto_shape in H as (rcv & arg & _ & Hr & Ha & ->).
    rewrite expand_goto.
    replace (str "await " ++ rcv ++ str ".goto(" ++ arg
             ++ str ", { waitUntil: \'domcontentloaded\', timeout: 10000 })")
      with ((str "await " ++ rcv ++ "."%char :: str "goto(") ++ arg
            ++ str ", { waitUntil: \'domcontentloaded\', timeout: 10000 })")
      by (canon; reflexivity).
    apply no_start_app.
    { apply selector_wait_no_start1; [exact Hr|reflexivity|].
      intros q1 rest. discriminate. }
    apply no_start_app.
    { apply no_start_before_comma; [apply pattern1_tight|exact Ha]. }
    now apply (no_start_lit _ pattern1_await).
Qed.

(** *** Rule 2, line by line *)

Lemma occurs_inside r (pre l post : text) :
  occurs r l -> occurs r (pre ++ l ++ post).
Proof.
  intros (p & w & q & g & -> & HM).
  exists (pre ++ p), w, (q ++ post), g. split; [|exact HM].
  now rewrite <- !app_assoc.
Qed.

Lemma has_match_inside r (pre l post : text) :
  has_match r (pre ++ l ++ post) = false -> has_match r l = false.
Proof.
  intros H. apply not_occurs_has_match. intros Ho.
  apply (occurs_inside r pre l post), has_match_occurs in Ho. congruence.
Qed.

Lemma tight_no_nl (w : text) : tight w -> ~ In nl w.
Proof.
  intros (body & -> & Hb) H.
  apply in_app_or in H as [H|H]; [vm_compute in H; intuition discriminate|].
  apply in_app_or in H as [H|H].
  - now apply (plain_not_in nl body).
  - vm_compute in H. intuition discriminate.
Qed.

Lemma tight_nonempty (w : text) : tight w -> w <> [].
Proof. intros (body & -> & _). discriminate. Qed.

(** A text without a newline that lies in the joined lines lies in one of
    them. *)
Lemma substring_in_line (w : text) :
  ~ In nl w -> w <> [] ->
  forall ls pre post, join_lines ls = pre ++ w ++ post ->
    exists l p q, In l ls /\ l = p ++ w ++ q.
Proof.
  intros Hnl Hw. induction ls as [|l ls IH]; intros pre post E.
  - simpl in E. destruct pre; [|discriminate]. destruct w; [easy|discriminate].
  - destruct ls as [|y ls].
    + exists l, pre, post. split; [now left|exact E].
    + change (join_lines (l :: y :: ls))
        with (l ++ nl :: join_lines (y :: ls)) in E.
      apply app_eq_app in E as (k & [[E1 E2]|[E1 E2]]).
      * apply app_eq_app in E2 as (k2 & [[E3 E4]|[E3 E4]]).
        -- destruct k2 as [|c k2].
           ++ exists l, pre, []. split; [now left|].
              rewrite E1, E3. now rewrite !app_nil_r.
           ++ injection E4 as <- _. exfalso. apply Hnl. rewrite E3.
              apply in_or_app. right. now left.
        -- exists l, pre, k2. split; [now left|]. now rewrite E1, E3.
      * destruct k as [|c k].
        -- destruct w as [|c w]; [easy|]. injection E2 as <- _.
           exfalso. apply Hnl. now left.
        -- injection E2 as _ E2.
           destruct (IH _ _ E2) as (l0 & p & q & Hin & El).
           exists l0, p, q. split; [now right|exact El].
Qed.

Lemma join_keeps_pattern1 (ls : list text) :
  Forall (fun l => has_match pattern1 l = false) ls ->
  has_match pattern1 (join_lines ls) = false.
Proof.
  intros HF. apply not_occurs_has_match.
  intros (pre & w & post & g & E & HM).
  pose proof (pattern1_tight w g HM) as Ht.
  destruct (substring_in_line w (tight_no_nl w Ht) (tight_nonempty w Ht)
              ls pre post E) as (l & p & q & Hin & ->).
  rewrite Forall_forall in HF. specialize (HF _ Hin).
  assert (Ho : occurs pattern1 (p ++ w ++ q)) by now exists p, w, q, g.
  apply has_match_occurs in Ho. congruence.
Qed.

Lemma split_keeps_pattern1 (t : text) :
  has_match pattern1 t = false ->
  Forall (fun l => has_match pattern1 l = false) (split_lines t).
Proof.
  intros H. apply Forall_forall. intros l Hl.
  apply line_is_substring in Hl as (pre & post & ->).
  now apply has_match_inside in H.
Qed.

Lemma fix2_line_keeps_pattern1 (l l' : text) (d : nat) :
  has_match pattern1 l = false -> fix2_line l = Some (l', d) ->
  has_match pattern1 l' = false.
Proof.
  intros Hl. unfold fix2_line.
  destruct (goto_guard l); [|now intros [= <- _]].
  destruct (search pattern_goto l) as [g|] eqn:Hs; [|now intros [= <- _]].
  apply search_sound in Hs as (pre & w & post & _ & HM).
  apply pattern_goto_inv in HM as (rcv & arg & _ & _ & _ & _ & _ & ->).
  change (get_group 2 [(2, arg); (1, rcv)]) with (Some arg). cbv beta iota.
  destruct (count_char "," arg =? 0); [|now intros [= <- _]].
  unfold sub, subn. rewrite compile_goto_eq. simpl.
  intros [= <- _]. now apply goto_keeps_pattern1.
Qed.

Lemma fix2_loop_keeps (P : text -> Prop) :
  (forall l l' d, P l -> fix2_line l = Some (l', d) -> P l') ->
  forall lines acc n out k,
    Forall P lines -> Forall P acc ->
    fix2_loop lines acc n = Some (out, k) -> Forall P out.
Proof.
  intros HP. induction lines as [|l lines IH]; intros acc n out k Hl Ha; simpl.
  - now intros [= <- _].
  - destruct (fix2_line l) as [[l' d]|] eqn:E; [|discriminate].
    inversion Hl as [|? ? Hl1 Hl2]; subst. apply IH; [exact Hl2|].
    apply Forall_app. split; [exact Ha|].
    constructor; [|constructor]. now apply (HP l l' d).
Qed.

(** *** Patterns 3 and 4 end in a match of pattern 5 *)

Lemma occurs_pattern3_pattern5 (t : text) :
  occurs pattern3 t -> occurs pattern5 t.
Proof.
  intros (pre & w & post & g & -> & HM).
  apply pattern3_inv in HM as (c & ws & rcv & d & -> & _ & _ & Hr & Hr1 & Hd & Hd1 & _).
  exists (pre ++ str "// Wait for iframe to load" ++ c ++ [nl] ++ ws),
    (str "await " ++ rcv ++ str ".waitForTimeout(" ++ d ++ str ")"), post.
  eexists. split; [now rewrite <- !app_assoc|].
  now apply pattern5_intro.
Qed.

Lemma occurs_pattern4_pattern5 (t : text) :
  occurs pattern4 t -> occurs pattern5 t.
Proof.
  intros (pre & w & post & g & -> & HM).
  apply pattern4_inv in HM
    as (b & s1 & s2 & rcv & d & -> & _ & _ & _ & _ & _ & Hr & Hr1 & Hd & Hd1 & _).
  exists (pre ++ str "await " ++ b ++ str ".click()" ++ s1 ++ [nl] ++ s2),
    (str "await " ++ rcv ++ str ".waitForTimeout(" ++ d ++ str ")"), post.
  eexists. split; [now rewrite <- !app_assoc|].
  now apply pattern5_intro.
Qed.

(** *** The text that a pass leaves *)

Lemma rewrite_out (t out : text) (n : nat) :
  rewrite t = Some (out, n) -> exists changes, apply_fixes t = Some (out, changes).
Proof.
  rewrite rewrite_eq.
  destruct (apply_fixes t) as [[content changes]|]; [|discriminate].
  destruct (text_eqb content t) eqn:E.
  - apply text_eqb_eq in E. subst content. intros [= <- _]. now exists changes.
  - intros [= <- _]. now exists changes.
Qed.

Lemma apply_fixes_out (t content : text) (changes : nat) :
  apply_fixes t = Some (content, changes) ->
  has_match pattern1 content = false /\ has_match pattern5 content = false.
Proof.
  unfold apply_fixes, subn.
  rewrite compile1_eq, compile3_eq, compile4_eq, compile5_eq.
  pose proof (rule1_kills t) as H1.
  destruct (scan pattern1 items1 0 t) as [c1 n1]. simpl in H1.
  cbv beta iota zeta.
  destruct (fix2_loop (split_lines c1) [] (0 + n1)) as [[new_lines n2]|] eqn:E2;
    [|discriminate].
  assert (H2 : has_match pattern1 (join_lines new_lines) = false).
  { apply join_keeps_pattern1.
    apply (fix2_loop_keeps _ fix2_line_keeps_pattern1 _ _ _ _ _
             (split_keeps_pattern1 c1 H1) (Forall_nil _) E2). }
  cbv beta iota zeta.
  pose proof (rule3_keeps_pattern1 _ H2) as H3.
  destruct (scan pattern3 items3 0 (join_lines new_lines)) as [c3 n3].
  simpl in H3. cbv beta iota zeta.
  pose proof (rule4_keeps_pattern1 _ H3) as H4.
  destruct (scan pattern4 items4 0 c3) as [c4 n4].
  simpl in H4. cbv beta iota zeta.
  pose proof (rule5_keeps_pattern1 _ H4) as H5.
  pose proof (rule5_kills c4) as H5'.
  destruct (scan pattern5 items5 0 c4) as [c5 n5].
  simpl in H5, H5'. cbv beta iota zeta.
  intros [= <- _]. now split.
Qed.

(** C1 (amended).  A second pass over the text that a pass leaves can change
    it through rule 2 only: whenever rule 2 rewrites no line of the text left
    by [rewrite t], the second pass returns that text unchanged with a count
    of zero.  Rules 1, 3, 4 and 5 never match again in the text of a pass. *)
Theorem second_pass_only_rule2 (t out : text) (n : nat) :
  rewrite t = Some (out, n) -> rule2_idle out -> rewrite out = Some (out, 0).
Proof.
  intros H Hidle.
  apply rewrite_out in H as (changes & H).
  apply apply_fixes_out in H as [H1 H5].
  apply rewrite_noop; auto.
  - apply not_occurs_has_match. intros Ho.
    apply occurs_pattern3_pattern5, has_match_occurs in Ho. congruence.
  - apply not_occurs_has_match. intros Ho.
    apply occurs_pattern4_pattern5, has_match_occurs in Ho. congruence.
Qed.

Lemma second_pass_only_rule2_witness :
  rewrite (unlines ["await page.goto(u)"; "await page.waitForTimeout(5)"])
  = Some (unlines ["await page.goto(u, { waitUntil: \'domcontentloaded\', timeout: 10000 })";
                   "// TODO: Replace timeout with specific element wait";
                   "    await page.waitForFunction(() => document.readyState === 'complete', { timeout: 5 }).catch(() => {})"], 2)
  /\ rule2_idle
       (unlines ["await page.goto(u, { waitUntil: \'domcontentloaded\', timeout: 10000 })";
                 "// TODO: Replace timeout with specific element wait";
                 "    await page.waitForFunction(() => document.readyState === 'complete', { timeout: 5 }).catch(() => {})"])
  /\ rewrite
       (unlines ["await page.goto(u, { waitUntil: \'domcontentloaded\', timeout: 10000 })";
                 "// TODO: Replace timeout with specific element wait";
                 "    await page.waitForFunction(() => document.readyState === 'complete', { timeout: 5 }).catch(() => {})"])
     = Some (unlines ["await page.goto(u, { waitUntil: \'domcontentloaded\', timeout: 10000 })";
                      "// TODO: Replace timeout with specific element wait";
                      "    await page.waitForFunction(() => document.readyState === 'complete', { timeout: 5 }).catch(() => {})"], 0).
Proof.
  assert (H1 : rewrite (unlines ["await page.goto(u)"; "await page.waitForTimeout(5)"])
    = Some (unlines ["await page.goto(u, { waitUntil: \'domcontentloaded\', timeout: 10000 })";
                     "// TODO: Replace timeout with specific element wait";
                     "    await page.waitForFunction(() => document.readyState === 'complete', { timeout: 5 }).catch(() => {})"], 2))
    by (vm_compute; reflexivity).
  assert (H2 : rule2_idle
    (unlines ["await page.goto(u, { waitUntil: \'domcontentloaded\', timeout: 10000 })";
              "// TODO: Replace timeout with specific element wait";
              "    await page.waitForFunction(() => document.readyState === 'complete', { timeout: 5 }).catch(() => {})"])).
  { intros l Hl. vm_compute in Hl.
    destruct Hl as [<-|[<-|[<-|[]]]]; vm_compute; reflexivity. }
  split; [exact H1|]. split; [exact H2|].
  exact (second_pass_only_rule2 _ _ _ H1 H2).
Defined.

(** ** Further properties of the engine *)

(** *** A count of zero *)

Lemma scan_zero r items (s : text) :
  snd (scan r items 0 s) = 0 -> fst (scan r items 0 s) = s.
Proof.
  induction s as [|c s IH].
  - simpl. destruct (match_at r []) as [[s' g]|]; simpl;
      [discriminate|reflexivity].
  - destruct (match_at r (c :: s)) as [[s'' g]|] eqn:Hm.
    + cbn [scan]. rewrite Hm.
      match goal with
      | |- context [scan r items (Nat.pred ?x) s] =>
          destruct (scan r items (Nat.pred x) s) as [out n];
          destruct (x =? 0); simpl; discriminate
      end.
    + rewrite (scan_at_no_match _ _ _ _ Hm). simpl.
      intros H. now rewrite IH.
Qed.

Lemma subn_zero r repl (s out : text) :
  subn r repl s = Some (out, 0) -> out = s.
Proof.
  unfold subn. destruct (compile_template r repl) as [items|]; [|discriminate].
  intros [= H]. pose proof (scan_zero r items s) as Hz.
  destruct (scan r items 0 s) as [o k]. injection H as -> ->.
  exact (Hz eq_refl).
Qed.

Lemma fix2_line_zero (l l' : text) : fix2_line l = Some (l', 0) -> l' = l.
Proof.
  unfold fix2_line. destruct (goto_guard l); [|now intros [= <-]].
  destruct (search pattern_goto l) as [g|]; [|now intros [= <-]].
  destruct (get_group 2 g) as [arg|]; [|discriminate].
  destruct (count_char "," arg =? 0); [|now intros [= <-]].
  destruct (sub pattern_goto replacement_goto l); discriminate.
Qed.

Lemma fix2_loop_zero (lines : list text) : forall acc n out k,
  fix2_loop lines acc n = Some (out, k) ->
  n <= k /\ (k = n -> out = acc ++ lines).
Proof.
  induction lines as [|l lines IH]; intros acc n out k; simpl.
  - intros [= <- <-]. split; [lia|]. now rewrite app_nil_r.
  - destruct (fix2_line l) as [[l' d]|] eqn:E; [|discriminate].
    intros H. apply IH in H as [Hle Heq]. split; [lia|].
    intros ->. assert (d = 0) by lia. subst d.
    apply fix2_line_zero in E. subst l'.
    rewrite Heq by lia. now rewrite <- app_assoc.
Qed.

Lemma apply_fixes_zero (t content : text) :
  apply_fixes t = Some (content, 0) -> content = t.
Proof.
  unfold apply_fixes.
  destruct (subn pattern1 replacement1 t) as [[c1 n1]|] eqn:E1; [|discriminate].
  destruct (fix2_loop (split_lines c1) [] (0 + n1)) as [[ls n2]|] eqn:E2;
    [|discriminate].
  destruct (subn pattern3 replacement3 (join_lines ls)) as [[c3 n3]|] eqn:E3;
    [|discriminate].
  destruct (subn pattern4 replacement4 c3) as [[c4 n4]|] eqn:E4; [|discriminate].
  destruct (subn pattern5 replacement5 c4) as [[c5 n5]|] eqn:E5; [|discriminate].
  intros [= <- H].
  apply fix2_loop_zero in E2 as [Hle Heq].
  assert (n1 = 0) by lia. assert (n2 = 0) by lia. assert (n3 = 0) by lia.
  assert (n4 = 0) by lia. assert (n5 = 0) by lia. subst.
  apply subn_zero in E1, E3, E4, E5. subst.
  rewrite (Heq eq_refl). simpl app. apply join_split.
Qed.

(** X1.  The count that the engine returns is zero exactly when the text it
    returns is the text it was given: no rule rewrites anything without
    counting it, and a count is reported only with a changed text. *)
Theorem zero_count_iff_unchanged (t out : text) (n : nat) :
  rewrite t = Some (out, n) -> (n = 0 <-> out = t).
Proof.
  rewrite rewrite_eq.
  destruct (apply_fixes t) as [[content changes]|] eqn:E; [|discriminate].
  destruct (text_eqb content t) eqn:Eq.
  - intros [= <- <-]. tauto.
  - intros [= <- <-]. split.
    + intros ->. now apply apply_fixes_zero.
    + intros ->. now rewrite text_eqb_refl in Eq.
Qed.

Lemma zero_count_iff_unchanged_witness :
  1 = 0 <->
  str "await page.waitForSelector('body', { timeout: 5000 })"
  = str "await page.waitForLoadState('networkidle')".
Proof.
  apply (zero_count_iff_unchanged
           (str "await page.waitForLoadState('networkidle')")
           (str "await page.waitForSelector('body', { timeout: 5000 })") 1).
  vm_compute. reflexivity.
Defined.

(** *** No trigger shape of rules 1, 3, 4 and 5 in the text of a pass *)

Lemma pattern1_intro rcv q1 q2 g0 :
  forallb isword rcv = true -> 1 <= length rcv ->
  mem quote_set q1 = true -> mem quote_set q2 = true ->
  Match pattern1
        (str "await " ++ rcv ++ str ".waitForLoadState(" ++ [q1]
         ++ str "networkidle" ++ [q2] ++ str ")")
        g0 ((1, rcv) :: g0).
Proof.
  intros. unfold pattern1, lit.
  eapply MSeq; [apply Match_lits|].
  eapply MSeq; [apply MGrp, MRep; assumption|].
  eapply MSeq; [apply Match_lits|].
  eapply MSeq; [now apply MIn|].
  eapply MSeq; [apply Match_lits|].
  eapply MSeq; [now apply MIn|].
  apply Match_lits.
Qed.

Lemma rewrite_leaves_no_match (t out : text) (n : nat) :
  rewrite t = Some (out, n) ->
  ~ occurs pattern1 out /\ ~ occurs pattern5 out.
Proof.
  intros H. apply rewrite_out in H as (changes & H).
  apply apply_fixes_out in H as [H1 H5].
  split; intros Ho; apply has_match_occurs in Ho; congruence.
Qed.

(** X2.  The text that a pass returns holds no fixed-duration wait call
    [await <receiver>.waitForTimeout(<digits>)] any more, wherever the call
    stood and whichever of the rules 3, 4 and 5 took it. *)
Theorem no_fixed_wait_left (t out : text) (n : nat) (pre rcv d post : text) :
  rewrite t = Some (out, n) ->
  forallb isword rcv = true -> 1 <= length rcv ->
  forallb isdigit d = true -> 1 <= length d ->
  out <> pre ++ (str "await " ++ rcv ++ str ".waitForTimeout(" ++ d ++ str ")")
             ++ post.
Proof.
  intros H Hr Hr1 Hd Hd1 E.
  apply rewrite_leaves_no_match in H as [_ H]. apply H.
  exists pre, (str "await " ++ rcv ++ str ".waitForTimeout(" ++ d ++ str ")"),
    post.
  eexists. split; [exact E|]. now apply pattern5_intro.
Qed.

Lemma no_fixed_wait_left_witness :
  unlines ["await b.click()";
           "  // Wait briefly for UI update";
           "  await page.waitForLoadState('domcontentloaded', { timeout: 2000 }).catch(() => {})";
           "// TODO: Replace timeout with specific element wait";
           "    await page.waitForFunction(() => document.readyState === 'complete', { timeout: 20 }).catch(() => {})"]
  <> str "await b.click()" ++ [nl] ++ str "  "
     ++ (str "await " ++ str "page" ++ str ".waitForTimeout(" ++ str "300"
         ++ str ")")
     ++ nl :: str "await page.waitForTimeout(20)".
Proof.
  apply (no_fixed_wait_left
           (unlines ["await b.click()"; "  await page.waitForTimeout(300)";
                     "await page.waitForTimeout(20)"])
           _ 2 (str "await b.click()" ++ [nl] ++ str "  ") (str "page")
           (str "300") (nl :: str "await page.waitForTimeout(20)")).
  - vm_compute. reflexivity.
  - reflexivity.
  - vm_compute. lia.
  - reflexivity.
  - vm_compute. lia.
Defined.

(** X3.  Nor does it hold a network-idle wait
    [await <receiver>.waitForLoadState(<quote>networkidle<quote>)], with
    either quote character on either side. *)
Theorem no_networkidle_wait_left (t out : text) (n : nat)
        (pre rcv post : text) (q1 q2 : ascii) :
  rewrite t = Some (out, n) ->
  forallb isword rcv = true -> 1 <= length rcv ->
  In q1 ["'"%char; dquote] -> In q2 ["'"%char; dquote] ->
  out <> pre ++ (str "await " ++ rcv ++ str ".waitForLoadState(" ++ [q1]
                 ++ str "networkidle" ++ [q2] ++ str ")") ++ post.
Proof.
  intros H Hr Hr1 Hq1 Hq2 E.
  apply rewrite_leaves_no_match in H as [H _]. apply H.
  exists pre, (str "await " ++ rcv ++ str ".waitForLoadState(" ++ [q1]
               ++ str "networkidle" ++ [q2] ++ str ")"), post.
  eexists. split; [exact E|].
  apply pattern1_intro; auto.
  - destruct Hq1 as [<-|[<-|[]]]; reflexivity.
  - destruct Hq2 as [<-|[<-|[]]]; reflexivity.
Qed.

Lemma no_networkidle_wait_left_witness :
  unlines ["await page.waitForSelector('body', { timeout: 5000 })";
           "await page.click('#go')"]
  <> [] ++ (str "await " ++ str "page" ++ str ".waitForLoadState(" ++ ["'"%char]
            ++ str "networkidle" ++ ["'"%char] ++ str ")")
     ++ nl :: str "await page.click('#go')".
Proof.
  apply (no_networkidle_wait_left
           (unlines ["await page.waitForLoadState('networkidle')";
                     "await page.click('#go')"])
           _ 1 [] (str "page") (nl :: str "await page.click('#go')")
           "'"%char "'"%char).
  - vm_compute. reflexivity.
  - reflexivity.
  - vm_compute. lia.
  - now left.
  - now left.
Defined.

(** ** Properties of the driver *)

Lemma write_same (fs : files) p c : write fs p c p = Some c.
Proof. unfold write. now rewrite String.eqb_refl. Qed.

Lemma write_other (fs : files) p c q : q <> p -> write fs p c q = fs q.
Proof. unfold write. intros H. now destruct (String.eqb_spec q p). Qed.

Lemma apply_fixes_total (t : text) :
  exists content changes, apply_fixes t = Some (content, changes).
Proof.
  unfold apply_fixes.
  destruct (subn_total _ _ t compile1) as (c1 & n1 & ->).
  pose proof (fix2_loop_total (split_lines c1) [] (0 + n1) fix2_line_total) as H2.
  destruct (fix2_loop (split_lines c1) [] (0 + n1)) as [[ls n2]|]; [|congruence].
  destruct (subn_total _ _ (join_lines ls) compile3) as (c3 & n3 & ->).
  destruct (subn_total _ _ c3 compile4) as (c4 & n4 & ->).
  destruct (subn_total _ _ c4 compile5) as (c5 & n5 & ->).
  eauto.
Qed.

(** What a call of [fix_file] that returns has done. *)
Lemma fix_file_spec (fs fs' : files) f n :
  fix_file fs f = Some (fs', n) ->
  exists original content changes,
    fs f = Some original /\ apply_fixes original = Some (content, changes)
    /\ ((content = original /\ fs' = fs /\ n = 0)
        \/ (content <> original /\ fs' = write fs f content /\ n = changes
            /\ 0 < changes)).
Proof.
  unfold fix_file. destruct (fs f) as [original|]; [|discriminate].
  destruct (apply_fixes original) as [[content changes]|] eqn:E; [|discriminate].
  destruct (text_eqb content original) eqn:Eq; simpl; intros [= <- <-];
    exists original, content, changes; repeat split; auto.
  - left. apply text_eqb_eq in Eq. auto.
  - right. assert (Hne : content <> original).
    { intros ->. now rewrite text_eqb_refl in Eq. }
    repeat split; auto.
    destruct changes; [|lia]. now apply apply_fixes_zero in E.
Qed.


Lemma fix_file_frame (fs fs' : files) f n p :
  fix_file fs f = Some (fs', n) -> p <> f -> fs' p = fs p.
Proof.
  intros H Hp.
  apply fix_file_spec in H
    as (o & c & k & _ & _ & [(_ & -> & _)|(_ & -> & _)]); [reflexivity|].
  now apply write_other.
Qed.


(** One turn of the loop of [main]. *)
Lemma main_loop_cons f rest (st st' : totals) :
  main_loop (f :: rest) st = Some st' ->
  exists content, fs_of st f = Some content
    /\ ((skipped content = true /\ main_loop rest st = Some st')
        \/ (skipped content = false
            /\ exists fs' changes st1,
                 fix_file (fs_of st) f = Some (fs', changes)
                 /\ main_loop rest st1 = Some st'
                 /\ fs_of st1 = fs'
                 /\ total_changes st1 = total_changes st + changes
                 /\ total_files st1
                    = total_files st + (if 0 <? changes then 1 else 0))).
Proof.
  simpl. destruct (fs_of st f) as [content|]; [|discriminate].
  intros H. exists content. split; [reflexivity|].
  destruct (skipped content); [now left|right]. split; [reflexivity|].
  destruct (fix_file (fs_of st) f) as [[fs' changes]|]; [|discriminate].
  exists fs', changes.
  destruct (0 <? changes) eqn:E.
  - eexists. repeat split; [exact H|reflexivity..].
  - apply Nat.ltb_ge in E. assert (changes = 0) by lia. subst changes.
    eexists. repeat split; [exact H|first [reflexivity | simpl; lia]..].
Qed.

Lemma main_loop_frame p : forall paths (st st' : totals),
  main_loop paths st = Some st' -> ~ In p paths -> fs_of st' p = fs_of st p.
Proof.
  induction paths as [|f rest IH]; intros st st' H Hp.
  - simpl in H. now injection H as <-.
  - apply main_loop_cons in H
      as (content & _ & [[_ H]|(_ & fs' & k & st1 & Hf & H & E & _)]).
    + apply IH; [exact H|]. intros Hin. apply Hp. now right.
    + rewrite (IH _ _ H) by (intros Hin; apply Hp; now right).
      rewrite E. apply (fix_file_frame _ _ _ _ _ Hf).
      intros ->. apply Hp. now left.
Qed.

(** X4.  [main] changes no file other than those handed to it: a path that is
    not among the spec files has the same contents afterwards. *)
Theorem main_leaves_unlisted_files (spec_files : list string) (fs : files)
        (st : totals) (p : string) :
  main spec_files fs = Some st -> ~ In p spec_files -> fs_of st p = fs p.
Proof. intros H Hp. exact (main_loop_frame p _ _ _ H Hp). Qed.

Lemma main_leaves_unlisted_files_witness :
  fs_of {| fs_of := write (write (write (fun _ => None) "a.spec.ts"
                                    (str "await page.waitForTimeout(5)"))
                            "b.spec.ts" (str "await page.waitForTimeout(7)"))
                      "a.spec.ts"
                      (unlines ["// TODO: Replace timeout with specific element wait";
                                "    await page.waitForFunction(() => document.readyState === 'complete', { timeout: 5 }).catch(() => {})"]);
           total_files := 1; total_changes := 1; fixed := ["a.spec.ts"] |}
        "b.spec.ts"
  = write (write (fun _ => None) "a.spec.ts" (str "await page.waitForTimeout(5)"))
          "b.spec.ts" (str "await page.waitForTimeout(7)") "b.spec.ts".
Proof.
  apply (main_leaves_unlisted_files ["a.spec.ts"]).
  - vm_compute. reflexivity.
  - vm_compute. intuition discriminate.
Defined.

Lemma main_loop_skips p content : forall paths (st st' : totals),
  main_loop paths st = Some st' ->
  fs_of st p = Some content ->
  contains (str "waitForTimeout") content = false ->
  fs_of st' p = Some content.
Proof.
  induction paths as [|f rest IH]; intros st st' H Hp Hc.
  - simpl in H. now injection H as <-.
  - apply main_loop_cons in H
      as (c & Hf & [[_ H]|(Hs & fs' & k & st1 & Hfix & H & E & _)]).
    + now apply (IH st).
    + apply (IH st1); [exact H| |exact Hc].
      rewrite E. rewrite (fix_file_frame _ _ _ _ p Hfix); [exact Hp|].
      intros ->. rewrite Hp in Hf. injection Hf as <-.
      rewrite skipped_eq, Hc in Hs. discriminate.
Qed.

(** X5.  A file whose contents do not hold [waitForTimeout] is never
    rewritten by [main], whether or not it holds [networkidle]: the second
    [f.read()] of the test before [continue] returns the empty string, so
    the test looks for [waitForTimeout] only. *)
Theorem file_without_waitForTimeout_untouched (spec_files : list string)
        (fs : files) (st : totals) (p : string) (content : text) :
  main spec_files fs = Some st ->
  fs p = Some content ->
  contains (str "waitForTimeout") content = false ->
  fs_of st p = Some content.
Proof. intros H Hp Hc. exact (main_loop_skips p content _ _ _ H Hp Hc). Qed.

Lemma file_without_waitForTimeout_untouched_witness :
  fs_of {| fs_of := write (write (write (fun _ => None) "a.spec.ts"
                                    (str "await page.waitForLoadState('networkidle')"))
                            "b.spec.ts" (str "await page.waitForTimeout(7)"))
                      "b.spec.ts"
                      (unlines ["// TODO: Replace timeout with specific element wait";
                                "    await page.waitForFunction(() => document.readyState === 'complete', { timeout: 7 }).catch(() => {})"]);
           total_files := 1; total_changes := 1;
           fixed := ["b.spec.ts"] |}
        "a.spec.ts"
  = Some (str "await page.waitForLoadState('networkidle')").
Proof.
  apply (file_without_waitForTimeout_untouched ["a.spec.ts"; "b.spec.ts"]
           (write (write (fun _ => None) "a.spec.ts"
                     (str "await page.waitForLoadState('networkidle')"))
                  "b.spec.ts" (str "await page.waitForTimeout(7)"))).
  - vm_compute. reflexivity.
  - reflexivity.
  - reflexivity.
Defined.

Lemma main_loop_counts : forall paths (st st' : totals),
  main_loop paths st = Some st' ->
  total_changes st <= total_changes st'
  /\ total_files st' - total_files st <= length paths
  /\ total_files st' - total_files st <= total_changes st' - total_changes st
  /\ total_files st <= total_files st'
  /\ (total_changes st' = total_changes st -> fs_of st' = fs_of st).
Proof.
  induction paths as [|f rest IH]; intros st st' H.
  - simpl in H. injection H as <-. repeat split; auto; simpl; lia.
  - apply main_loop_cons in H
      as (content & _ & [[_ H]|(_ & fs' & k & st1 & Hf & H & E & Ec & En)]).
    + apply IH in H as (H1 & H2 & H3 & H4 & H5).
      repeat split; auto; simpl; lia.
    + apply IH in H as (H1 & H2 & H3 & H4 & H5).
      assert (Hk : (if 0 <? k then 1 else 0) <= k /\ (if 0 <? k then 1 else 0) <= 1).
      { destruct (Nat.ltb_spec 0 k); lia. }
      repeat split; simpl; try lia.
      intros Heq. assert (k = 0) by lia. subst k.
      rewrite H5 by lia. rewrite E.
      apply fix_file_spec in Hf
        as (o & c & n & _ & _ & [(_ & -> & _)|(_ & _ & ? & ?)]);
        [reflexivity|lia].
Qed.

(** X6.  When [main] reports no change at all, it has written nothing: the
    files are what they were.  (A rewritten file always adds at least one to
    the total.) *)
Theorem main_zero_changes_no_write (spec_files : list string) (fs : files)
        (st : totals) :
  main spec_files fs = Some st -> total_changes st = 0 -> fs_of st = fs.
Proof.
  intros H H0. apply main_loop_counts in H as (_ & _ & _ & _ & H).
  now apply H.
Qed.

Lemma main_zero_changes_no_write_witness :
  fs_of {| fs_of := write (fun _ => None) "a.spec.ts"
                      (str "// no waitForTimeout here");
           total_files := 0; total_changes := 0; fixed := ["a.spec.ts"] |}
  = write (fun _ => None) "a.spec.ts" (str "// no waitForTimeout here").
Proof.
  apply (main_zero_changes_no_write ["a.spec.ts"]).
  - vm_compute. reflexivity.
  - reflexivity.
Defined.

Lemma main_loop_zero_iff : forall paths (st st' : totals),
  main_loop paths st = Some st' ->
  (total_files st = 0 <-> total_changes st = 0) ->
  (total_files st' = 0 <-> total_changes st' = 0).
Proof.
  induction paths as [|f rest IH]; intros st st' H Hi.
  - simpl in H. now injection H as <-.
  - apply main_loop_cons in H
      as (content & _ & [[_ H]|(_ & fs' & k & st1 & Hf & H & E & Ec & En)]).
    + now apply (IH st).
    + apply (IH st1); [exact H|].
      destruct (Nat.ltb_spec 0 k); lia.
Qed.

(** X7.  The two totals of [main]: the number of files reported as fixed is
    at most the number of spec files and at most the number of changes
    reported, and one total is zero exactly when the other is. *)
Theorem main_totals_bounds (spec_files : list string) (fs : files)
        (st : totals) :
  main spec_files fs = Some st ->
  total_files st <= length spec_files
  /\ total_files st <= total_changes st
  /\ (total_files st = 0 <-> total_changes st = 0).
Proof.
  intros H.
  pose proof (main_loop_zero_iff _ _ _ H) as Hz.
  apply main_loop_counts in H as (H1 & H2 & H3 & H4 & _). simpl in *.
  repeat split; try lia; apply Hz; auto.
Qed.

Lemma main_totals_bounds_witness :
  1 <= length ["a.spec.ts"; "b.spec.ts"] /\ 1 <= 2 /\ (1 = 0 <-> 2 = 0).
Proof.
  apply (main_totals_bounds ["a.spec.ts"; "b.spec.ts"]
           (write (write (fun _ => None) "a.spec.ts"
                     (str "await page.waitForLoadState('networkidle')"))
                  "b.spec.ts"
                  (str "await a.waitForTimeout(7); await b.waitForTimeout(8)"))
           {| fs_of := write (write (write (fun _ => None) "a.spec.ts"
                                       (str "await page.waitForLoadState('networkidle')"))
                                "b.spec.ts"
                                (str "await a.waitForTimeout(7); await b.waitForTimeout(8)"))
                         "b.spec.ts"
                         (unlines ["// TODO: Replace timeout with specific element wait";
                                   "    await a.waitForFunction(() => document.readyState === 'complete', { timeout: 7 }).catch(() => {}); // TODO: Replace timeout with specific element wait";
                                   "    await b.waitForFunction(() => document.readyState === 'complete', { timeout: 8 }).catch(() => {})"]);
              total_files := 1; total_changes := 2;
              fixed := ["b.spec.ts"] |}).
  vm_compute. reflexivity.
Defined.



(** *** What [main] leaves in the spec files *)

Section DriverInvariant.
Variable C : text -> Prop.
Hypothesis C_out :
  forall t content changes, apply_fixes t = Some (content, changes) -> C content.

Lemma fix_file_establishes (fs fs' : files) f n :
  fix_file fs f = Some (fs', n) -> forall c, fs' f = Some c -> C c.
Proof.
  intros H c Hc.
  apply fix_file_spec in H
    as (o & content & k & Ho & Hfix & [(<- & -> & _)|(_ & -> & _)]).
  - rewrite Ho in Hc. injection Hc as <-. eauto.
  - rewrite write_same in Hc. injection Hc as <-. eauto.
Qed.

Lemma fix_file_keeps (fs fs' : files) f n p :
  fix_file fs f = Some (fs', n) ->
  (forall c, fs p = Some c -> C c) -> forall c, fs' p = Some c -> C c.
Proof.
  intros H Hp c Hc. destruct (string_dec p f) as [->|Hne].
  - exact (fix_file_establishes _ _ _ _ H c Hc).
  - rewrite (fix_file_frame _ _ _ _ p H Hne) in Hc. auto.
Qed.

Lemma main_loop_keeps p : forall paths (st st' : totals),
  main_loop paths st = Some st' ->
  (forall c, fs_of st p = Some c -> C c) ->
  forall c, fs_of st' p = Some c -> C c.
Proof.
  induction paths as [|f rest IH]; intros st st' H Hp.
  - simpl in H. now injection H as <-.
  - apply main_loop_cons in H
      as (content & _ & [[_ H]|(_ & fs' & k & st1 & Hf & H & E & _)]).
    + now apply (IH st).
    + apply (IH st1); [exact H|]. rewrite E.
      now apply (fix_file_keeps _ _ _ _ p Hf).
Qed.

Lemma main_loop_establishes p : forall paths (st st' : totals),
  main_loop paths st = Some st' -> In p paths ->
  (forall c, fs_of st p = Some c -> skipped c = true -> C c) ->
  forall c, fs_of st' p = Some c -> C c.
Proof.
  induction paths as [|f rest IH]; intros st st' H Hin Hp; [contradiction|].
  apply main_loop_cons in H
    as (content & Hc & [[Hs H]|(_ & fs' & k & st1 & Hf & H & E & _)]).
  - destruct (string_dec f p) as [->|Hne].
    + apply (main_loop_keeps p _ _ _ H).
      intros c Hc'. rewrite Hc in Hc'. injection Hc' as <-. auto.
    + destruct Hin as [->|Hin]; [congruence|]. now apply (IH st).
  - destruct (string_dec f p) as [->|Hne].
    + apply (main_loop_keeps p _ _ _ H). rewrite E.
      exact (fix_file_establishes _ _ _ _ Hf).
    + destruct Hin as [->|Hin]; [congruence|].
      apply (IH st1); [exact H|exact Hin|]. rewrite E.
      rewrite (fix_file_frame _ _ _ _ p Hf) by congruence. exact Hp.
Qed.
End DriverInvariant.

Lemma contains_inside (p a b t : text) :
  contains (a ++ p ++ b) t = true -> contains p t = true.
Proof.
  rewrite !contains_spec. intros (pre & post & ->).
  exists (pre ++ a), (b ++ post). now rewrite <- !app_assoc.
Qed.

Lemma skipped_no_pattern5 (c : text) : skipped c = true -> ~ occurs pattern5 c.
Proof.
  rewrite skipped_eq. intros Hs Ho. apply occurs_pattern5_needle in Ho.
  apply (contains_inside (str "waitForTimeout") ["."%char] ["("%char]) in Ho.
  rewrite Ho in Hs. discriminate.
Qed.

Lemma apply_fixes_no_match (t content : text) (changes : nat) :
  apply_fixes t = Some (content, changes) ->
  ~ occurs pattern1 content /\ ~ occurs pattern5 content.
Proof.
  intros H. apply apply_fixes_out in H as [H1 H5].
  split; intros Ho; apply has_match_occurs in Ho; congruence.
Qed.

(** X9.  When [main] has run, no spec file holds a fixed-duration wait call
    [await <receiver>.waitForTimeout(<digits>)] any more. *)
Theorem main_leaves_no_fixed_wait (spec_files : list string) (fs : files)
        (st : totals) (p : string) (c pre rcv d post : text) :
  main spec_files fs = Some st -> In p spec_files -> fs_of st p = Some c ->
  forallb isword rcv = true -> 1 <= length rcv ->
  forallb isdigit d = true -> 1 <= length d ->
  c <> pre ++ (str "await " ++ rcv ++ str ".waitForTimeout(" ++ d ++ str ")")
         ++ post.
Proof.
  intros H Hin Hc Hr Hr1 Hd Hd1 E.
  assert (Hno : ~ occurs pattern5 c).
  { apply (main_loop_establishes (fun c => ~ occurs pattern5 c)) with
      (p := p) (paths := spec_files) (st' := st)
      (st := {| fs_of := fs; total_files := 0; total_changes := 0;
                fixed := [] |}); auto.
    - intros t content changes Ha. now apply apply_fixes_no_match in Ha.
    - intros c0 _. apply skipped_no_pattern5. }
  apply Hno.
  exists pre, (str "await " ++ rcv ++ str ".waitForTimeout(" ++ d ++ str ")"),
    post.
  eexists. split; [exact E|]. now apply pattern5_intro.
Qed.

Lemma main_leaves_no_fixed_wait_witness :
  unlines ["// TODO: Replace timeout with specific element wait";
           "    await page.waitForFunction(() => document.readyState === 'complete', { timeout: 7 }).catch(() => {})"]
  <> [] ++ (str "await " ++ str "page" ++ str ".waitForTimeout(" ++ str "7"
            ++ str ")") ++ [].
Proof.
  apply (main_leaves_no_fixed_wait ["b.spec.ts"]
           (write (fun _ => None) "b.spec.ts" (str "await page.waitForTimeout(7)"))
           {| fs_of := write (write (fun _ => None) "b.spec.ts"
                                (str "await page.waitForTimeout(7)"))
                         "b.spec.ts"
                         (unlines ["// TODO: Replace timeout with specific element wait";
                                   "    await page.waitForFunction(() => document.readyState === 'complete', { timeout: 7 }).catch(() => {})"]);
              total_files := 1; total_changes := 1;
              fixed := ["b.spec.ts"] |}
           "b.spec.ts").
  - vm_compute. reflexivity.
  - now left.
  - reflexivity.
  - reflexivity.
  - vm_compute. lia.
  - reflexivity.
  - vm_compute. lia.
Defined.

(** X10.  A spec file that held [waitForTimeout] when [main] started holds
    no network-idle wait [await <receiver>.waitForLoadState(<quote>networkidle<quote>)]
    when [main] has run.  (A spec file without [waitForTimeout] is skipped
    and keeps its network-idle waits.) *)
Theorem main_leaves_no_networkidle_wait (spec_files : list string) (fs : files)
        (st : totals) (p : string) (c0 c pre rcv post : text) (q1 q2 : ascii) :
  main spec_files fs = Some st -> In p spec_files ->
  fs p = Some c0 -> contains (str "waitForTimeout") c0 = true ->
  fs_of st p = Some c ->
  forallb isword rcv = true -> 1 <= length rcv ->
  In q1 ["'"%char; dquote] -> In q2 ["'"%char; dquote] ->
  c <> pre ++ (str "await " ++ rcv ++ str ".waitForLoadState(" ++ [q1]
               ++ str "networkidle" ++ [q2] ++ str ")") ++ post.
Proof.
  intros H Hin Hc0 Hw Hc Hr Hr1 Hq1 Hq2 E.
  assert (Hno : ~ occurs pattern1 c).
  { apply (main_loop_establishes (fun c => ~ occurs pattern1 c)) with
      (p := p) (paths := spec_files) (st' := st)
      (st := {| fs_of := fs; total_files := 0; total_changes := 0;
                fixed := [] |}); auto.
    - intros t content changes Ha. now apply apply_fixes_no_match in Ha.
    - simpl. intros c1 Hc1 Hs. rewrite Hc0 in Hc1. injection Hc1 as <-.
      rewrite skipped_eq, Hw in Hs. discriminate. }
  apply Hno.
  exists pre, (str "await " ++ rcv ++ str ".waitForLoadState(" ++ [q1]
               ++ str "networkidle" ++ [q2] ++ str ")"), post.
  eexists. split; [exact E|].
  apply pattern1_intro; auto.
  - destruct Hq1 as [<-|[<-|[]]]; reflexivity.
  - destruct Hq2 as [<-|[<-|[]]]; reflexivity.
Qed.

Lemma main_leaves_no_networkidle_wait_witness :
  unlines ["await page.waitForSelector('body', { timeout: 5000 })";
           "// TODO: Replace timeout with specific element wait";
           "    await page.waitForFunction(() => document.readyState === 'complete', { timeout: 7 }).catch(() => {})"]
  <> [] ++ (str "await " ++ str "page" ++ str ".waitForLoadState(" ++ [dquote]
            ++ str "networkidle" ++ [dquote] ++ str ")")
     ++ nl :: str "await page.waitForTimeout(7)".
Proof.
  apply (main_leaves_no_networkidle_wait ["b.spec.ts"]
           (write (fun _ => None) "b.spec.ts"
              (str "await page.waitForLoadState(" ++ [dquote]
               ++ str "networkidle" ++ [dquote] ++ str ")"
               ++ nl :: str "await page.waitForTimeout(7)"))
           {| fs_of := write (write (fun _ => None) "b.spec.ts"
                (str "await page.waitForLoadState(" ++ [dquote]
                 ++ str "networkidle" ++ [dquote] ++ str ")"
                 ++ nl :: str "await page.waitForTimeout(7)"))
                         "b.spec.ts"
                         (unlines ["await page.waitForSelector('body', { timeout: 5000 })";
                                   "// TODO: Replace timeout with specific element wait";
                                   "    await page.waitForFunction(() => document.readyState === 'complete', { timeout: 7 }).catch(() => {})"]);
              total_files := 1; total_changes := 2;
              fixed := ["b.spec.ts"] |}
           "b.spec.ts"
           (str "await page.waitForLoadState(" ++ [dquote]
            ++ str "networkidle" ++ [dquote] ++ str ")"
            ++ nl :: str "await page.waitForTimeout(7)")).
  - vm_compute. reflexivity.
  - now left.
  - reflexivity.
  - reflexivity.
  - reflexivity.
  - reflexivity.
  - vm_compute. lia.
  - right. now left.
  - right. now left.
Defined.

(** ** Rule 1 on a network-idle wait *)

Section NetworkIdle.
Variables (rcv : text) (q1 q2 : ascii).
Hypothesis Hrcv : forallb isword rcv = true.
Hypothesis Hrcv1 : 1 <= length rcv.
Hypothesis Hq1 : mem quote_set q1 = true.
Hypothesis Hq2 : mem quote_set q2 = true.

Lemma networkidle_match1 rest :
  match_at pattern1 (networkidle_wait rcv q1 q2 ++ rest)
  = Some (rest, [(1, rcv)]).
Proof.
  apply match_at_unique.
  - exists (networkidle_wait rcv q1 q2). split; [reflexivity|].
    now apply pattern1_intro.
  - intros w2 s2 g2 E HM.
    apply pattern1_inv in HM as (r1 & p1 & p2 & -> & Hr1 & _ & _ & _ & ->).
    unfold networkidle_wait in E. rewrite <- !app_assoc in E.
    apply app_inv_head in E.
    apply (span_unique isword) in E as [<- E]; auto.
    cbn in E. injection E as _ _ E. auto.
Qed.

Lemma networkidle_scan1 :
  scan pattern1 items1 0 (networkidle_wait rcv q1 q2) = (body_wait rcv, 1).
Proof.
  rewrite <- (app_nil_r (networkidle_wait rcv q1 q2)).
  rewrite (scan_at_match pattern1 items1 (networkidle_wait rcv q1 q2) []
             [(1, rcv)]);
    [|unfold networkidle_wait; cbn; discriminate|apply networkidle_match1].
  rewrite scan_nil by reflexivity. cbn [fst snd]. rewrite app_nil_r.
  now rewrite expand1.
Qed.

Lemma body_wait_no_goto : ~ occurs pattern_goto (body_wait rcv).
Proof.
  apply (needle_free _ _ _ (occurs_goto_needle _)). unfold body_wait.
  dot_step (str "await " ++ rcv)
           (str "waitForSelector('body', { timeout: 5000 })").
  reflexivity.
Qed.

Lemma body_wait_no_pattern3 : ~ occurs pattern3 (body_wait rcv).
Proof. apply no_pattern3_without_slash. unfold body_wait. notin. Qed.

Lemma body_wait_no_pattern4 : ~ occurs pattern4 (body_wait rcv).
Proof.
  apply (needle_free _ _ _ (occurs_pattern4_needle _)). unfold body_wait.
  dot_step (str "await " ++ rcv)
           (str "waitForSelector('body', { timeout: 5000 })").
  reflexivity.
Qed.

Lemma body_wait_no_pattern5 : ~ occurs pattern5 (body_wait rcv).
Proof.
  apply (needle_free _ _ _ (occurs_pattern5_needle _)). unfold body_wait.
  dot_step (str "await " ++ rcv)
           (str "waitForSelector('body', { timeout: 5000 })").
  reflexivity.
Qed.

Lemma networkidle_rewrite :
  rewrite (networkidle_wait rcv q1 q2) = Some (body_wait rcv, 1).
Proof.
  rewrite rewrite_eq. unfold apply_fixes.
  unfold subn at 1. rewrite compile1_eq, networkidle_scan1.
  rewrite (fix2_loop_id _ _ _ (fix2_idle_no_goto _ body_wait_no_goto)).
  cbn [app]. rewrite join_split.
  rewrite (subn_no_match _ _ _ compile3
             (not_occurs_has_match _ _ body_wait_no_pattern3)).
  rewrite (subn_no_match _ _ _ compile4
             (not_occurs_has_match _ _ body_wait_no_pattern4)).
  rewrite (subn_no_match _ _ _ compile5
             (not_occurs_has_match _ _ body_wait_no_pattern5)).
  destruct (text_eqb _ _) eqn:E; [|reflexivity].
  apply text_eqb_eq in E. unfold body_wait, networkidle_wait in E.
  apply app_inv_head in E. apply app_inv_head in E. discriminate.
Qed.
End NetworkIdle.

(** X11.  A network-idle wait on its own, for every receiver and with either
    quote character on either side of [networkidle] (the two need not be the
    same), is replaced by the wait for the [body] selector with timeout
    5000; the count is one. *)
Theorem networkidle_wait_replaced (rcv : text) (q1 q2 : ascii) :
  forallb isword rcv = true -> 1 <= length rcv ->
  In q1 ["'"%char; dquote] -> In q2 ["'"%char; dquote] ->
  rewrite (str "await " ++ rcv ++ str ".waitForLoadState(" ++ [q1]
           ++ str "networkidle" ++ [q2] ++ str ")")
  = Some (str "await " ++ rcv
          ++ str ".waitForSelector('body', { timeout: 5000 })", 1).
Proof.
  intros Hr Hr1 Hq1 Hq2. apply networkidle_rewrite; auto.
  - destruct Hq1 as [<-|[<-|[]]]; reflexivity.
  - destruct Hq2 as [<-|[<-|[]]]; reflexivity.
Qed.

Lemma networkidle_wait_replaced_witness :
  rewrite (str "await " ++ str "page" ++ str ".waitForLoadState(" ++ ["'"%char]
           ++ str "networkidle" ++ [dquote] ++ str ")")
  = Some (str "await " ++ str "page"
          ++ str ".waitForSelector('body', { timeout: 5000 })", 1).
Proof.
  apply (networkidle_wait_replaced (str "page") "'"%char dquote).
  - reflexivity.
  - vm_compute. lia.
  - now left.
  - right. now left.
Defined.

(** ** Rule 2 on a line that is one [goto] call *)

Lemma search_head r (s s' : text) g :
  match_at r s = Some (s', g) -> search r s = Some g.
Proof. intros H. destruct s; simpl; now rewrite H. Qed.

Lemma not_in_forallb (x : ascii) (l : text) :
  ~ In x l -> forallb (fun c => negb (Ascii.eqb c x)) l = true.
Proof.
  induction l as [|a l IH]; intros H; [reflexivity|]. simpl.
  destruct (Ascii.eqb_spec a x) as [->|_]; [exfalso; apply H; now left|].
  apply IH. intros Hin. apply H. now right.
Qed.

Lemma count_char_zero (c : ascii) (s : text) :
  count_char c s = 0 <-> ~ In c s.
Proof.
  unfold count_char. induction s as [|a s IH]; simpl; [tauto|].
  destruct (Ascii.eqb_spec c a) as [->|Hne]; simpl.
  - split; [discriminate|]. intros H. exfalso. apply H. now left.
  - rewrite IH. split; [intros H [E|Hin]; [congruence|auto]|tauto].
Qed.

Lemma strip_tight (c e : ascii) (s : text) :
  isspace c = false -> isspace e = false ->
  strip (c :: s ++ [e]) = c :: s ++ [e].
Proof.
  intros Hc He. unfold strip. cbn [lstrip]. rewrite Hc.
  change (c :: s ++ [e]) with ((c :: s) ++ [e]) at 1.
  rewrite rev_unit. cbn [lstrip]. rewrite He.
  change (e :: rev (c :: s)) with ([e] ++ rev (c :: s)).
  rewrite rev_app_distr, rev_involutive. reflexivity.
Qed.

Lemma occurs_pattern3_nl (t : text) : occurs pattern3 t -> In nl t.
Proof.
  intros (pre & w & post & g & -> & HM).
  apply pattern3_inv in HM as (c & ws & r1 & d1 & -> & _).
  apply in_or_app. right. apply in_or_app. left. apply in_or_app. left.
  apply in_or_app. right. apply in_or_app. right. now left.
Qed.

Lemma occurs_pattern4_nl (t : text) : occurs pattern4 t -> In nl t.
Proof.
  intros (pre & w & post & g & -> & HM).
  apply pattern4_inv in HM as (b & s1 & s2 & r1 & d1 & -> & _).
  apply in_or_app. right. apply in_or_app. left.
  do 4 (apply in_or_app; right). now left.
Qed.

Section NoStartCall.
Variable Q : regex.
Hypothesis Q_await :
  forall s, startswith (str "await ") s = false -> match_at Q s = None.

(** A text that does not hold [await ], before a character that is not one
    of [await ]. *)
Lemma no_start_noawait (v T : text) (c : ascii) :
  contains (str "await ") v = false -> ~ In c (str "await ") ->
  no_start Q v (c :: T).
Proof.
  intros Hv Hc S1 S2 -> HS2. apply Q_await.
  destruct (startswith (str "await ") (S2 ++ c :: T)) eqn:E;
    [exfalso|reflexivity].
  apply startswith_spec in E as [s' E].
  assert (Hin : forall l, S2 = str "await " ++ l -> False).
  { intros l ->. rewrite (proj2 (contains_spec _ _)) in Hv; [discriminate|].
    now exists S1, l. }
  apply app_eq_app in E as [l [[E1 E2]|[E1 E2]]]; [now apply (Hin l)|].
  destruct l as [|x l].
  - apply (Hin []). rewrite E1. now rewrite !app_nil_r.
  - injection E2 as <- _. apply Hc. rewrite E1. apply in_elt.
Qed.

(** [await], a receiver, a dot and a literal, where [Q] does not match at
    the head. *)
Lemma await_call_no_start (rcv L Z : text) :
  forallb isword rcv = true ->
  starts_nowhere (str "await ") ("."%char :: L) = true ->
  match_at Q (str "await " ++ rcv ++ "."%char :: L ++ Z) = None ->
  no_start Q (str "await " ++ rcv ++ "."%char :: L) Z.
Proof.
  intros Hr HL Hne.
  change (str "await " ++ rcv ++ "."%char :: L)
    with (["a"%char] ++ str "wait " ++ rcv ++ "."%char :: L).
  apply no_start_app.
  { apply no_start_single. rewrite <- !app_assoc. exact Hne. }
  apply no_start_app; [now apply (no_start_lit _ Q_await)|].
  apply no_start_app; [now apply (no_start_word _ Q_await)|].
  now apply (no_start_lit _ Q_await).
Qed.
End NoStartCall.

Section GotoLine.
Variables rcv arg : text.
Hypothesis Hrcv : forallb isword rcv = true.
Hypothesis Hrcv1 : 1 <= length rcv.
Hypothesis Harg : forallb (mem (NoneOf [")"%char])) arg = true.
Hypothesis Harg1 : 1 <= length arg.
Hypothesis Hnl : ~ In nl arg.
Hypothesis Hawait : contains (str "await ") arg = false.

Lemma goto_intro g0 :
  Match pattern_goto (goto_line rcv arg) g0 ((2, arg) :: (1, rcv) :: g0).
Proof.
  unfold pattern_goto, goto_line, lit.
  eapply MSeq; [apply Match_lits|].
  eapply MSeq; [apply MGrp, MRep; assumption|].
  eapply MSeq; [apply Match_lits|].
  eapply MSeq; [apply MGrp, MRep; assumption|].
  apply Match_lits.
Qed.

Lemma goto_match rest :
  match_at pattern_goto (goto_line rcv arg ++ rest)
  = Some (rest, [(2, arg); (1, rcv)]).
Proof.
  apply match_at_unique.
  - exists (goto_line rcv arg). split; [reflexivity|apply goto_intro].
  - intros w2 s2 g2 E HM.
    apply pattern_goto_inv in HM as (r1 & a1 & -> & Hr1 & _ & Ha1 & _ & ->).
    unfold goto_line in E. rewrite <- !app_assoc in E.
    apply app_inv_head in E.
    apply (span_unique isword) in E as [<- E]; auto.
    apply (app_inv_head (str ".goto(")) in E.
    apply (span_unique (mem (NoneOf [")"%char]))) in E as [<- E]; auto.
    injection E as <-. auto.
Qed.

Lemma goto_search :
  search pattern_goto (goto_line rcv arg) = Some [(2, arg); (1, rcv)].
Proof.
  apply (search_head _ _ []). rewrite <- (app_nil_r (goto_line rcv arg)) at 1.
  apply goto_match.
Qed.

Lemma goto_sub :
  sub pattern_goto replacement_goto (goto_line rcv arg)
  = Some (goto_with_options rcv arg).
Proof.
  unfold sub, subn. rewrite compile_goto_eq. cbn [option_map]. f_equal.
  rewrite <- (app_nil_r (goto_line rcv arg)).
  rewrite (scan_at_match pattern_goto items_goto (goto_line rcv arg) []
             [(2, arg); (1, rcv)]);
    [|unfold goto_line; cbn; discriminate|apply goto_match].
  rewrite scan_nil by reflexivity. cbn [fst snd]. rewrite app_nil_r.
  now rewrite expand_goto.
Qed.

Lemma goto_line_no_nl : ~ In nl (goto_line rcv arg).
Proof.
  unfold goto_line. intros H.
  apply in_app_or in H as [H|H]; [vm_compute in H; intuition discriminate|].
  apply in_app_or in H as [H|H];
    [now apply (In_forallb_false isword nl rcv)|].
  apply in_app_or in H as [H|H]; [vm_compute in H; intuition discriminate|].
  apply in_app_or in H as [H|H]; [auto|vm_compute in H; intuition discriminate].
Qed.

Lemma goto_out_no_nl : ~ In nl (goto_with_options rcv arg).
Proof.
  unfold goto_with_options. intros H.
  apply in_app_or in H as [H|H]; [vm_compute in H; intuition discriminate|].
  apply in_app_or in H as [H|H];
    [now apply (In_forallb_false isword nl rcv)|].
  apply in_app_or in H as [H|H]; [vm_compute in H; intuition discriminate|].
  apply in_app_or in H as [H|H]; [auto|vm_compute in H; intuition discriminate].
Qed.

(** No match of pattern 1 or 5 in the call, nor in the call with the
    options. *)
Lemma goto_line_no_start Q (tail : text) (c : ascii) :
  (forall s, startswith (str "await ") s = false -> match_at Q s = None) ->
  (forall L, match_at Q (str "await " ++ rcv ++ "."%char :: str "goto(" ++ L)
             = None) ->
  ~ In c (str "await ") ->
  starts_nowhere (str "await ") (c :: tail) = true ->
  match_at Q [] = None ->
  has_match Q (str "await " ++ rcv ++ str ".goto(" ++ arg ++ c :: tail) = false.
Proof.
  intros Q_await Q_head Hc Htail Hnil.
  rewrite <- (app_nil_r (str "await " ++ _)).
  apply has_match_app_false; [|simpl; now rewrite Hnil].
  replace (str "await " ++ rcv ++ str ".goto(" ++ arg ++ c :: tail)
    with ((str "await " ++ rcv ++ "."%char :: str "goto(") ++ arg ++ c :: tail)
    by (rewrite <- !app_assoc; reflexivity).
  apply no_start_app.
  { apply (await_call_no_start _ Q_await); [exact Hrcv|reflexivity|].
    apply Q_head. }
  apply no_start_app.
  { now apply (no_start_noawait _ Q_await). }
  now apply (no_start_lit _ Q_await).
Qed.

Lemma goto_line_no_pattern1 : has_match pattern1 (goto_line rcv arg) = false.
Proof.
  apply (goto_line_no_start pattern1 [] ")"%char pattern1_await);
    try reflexivity.
  - intros L. apply pattern1_not_at; [exact Hrcv|]. intros q rest. discriminate.
  - vm_compute. intuition discriminate.
Qed.

Lemma goto_line_no_pattern5 : has_match pattern5 (goto_line rcv arg) = false.
Proof.
  apply (goto_line_no_start pattern5 [] ")"%char pattern5_await);
    try reflexivity.
  - intros L. apply pattern5_not_at; [exact Hrcv|]. intros rest. discriminate.
  - vm_compute. intuition discriminate.
Qed.

Lemma goto_out_no_pattern5 :
  has_match pattern5 (goto_with_options rcv arg) = false.
Proof.
  apply (goto_line_no_start pattern5
           (str " { waitUntil: \'domcontentloaded\', timeout: 10000 })")
           ","%char pattern5_await);
    try reflexivity.
  - intros L. apply pattern5_not_at; [exact Hrcv|]. intros rest. discriminate.
  - vm_compute. intuition discriminate.
Qed.

Lemma no_nl_no_context (t : text) :
  ~ In nl t -> has_match pattern3 t = false /\ has_match pattern4 t = false.
Proof.
  intros H. split; apply not_occurs_has_match; intros Ho; apply H.
  - now apply occurs_pattern3_nl.
  - now apply occurs_pattern4_nl.
Qed.

(** The first call of the line has a comma in its argument: the line stays. *)
Lemma goto_comma_fix2 :
  In ","%char arg ->
  fix2_line (goto_line rcv arg) = Some (goto_line rcv arg, 0).
Proof.
  intros Hc. unfold fix2_line.
  destruct (goto_guard (goto_line rcv arg)); [|reflexivity].
  rewrite goto_search.
  change (get_group 2 [(2, arg); (1, rcv)]) with (Some arg). cbv beta iota.
  destruct (Nat.eqb_spec (count_char "," arg) 0) as [E|_]; [|reflexivity].
  now apply count_char_zero in E.
Qed.

Lemma goto_comma_rewrite :
  In ","%char arg -> rewrite (goto_line rcv arg) = Some (goto_line rcv arg, 0).
Proof.
  intros Hc. apply rewrite_noop.
  - apply goto_line_no_pattern1.
  - rewrite (split_lines_single _ goto_line_no_nl).
    intros l [<-|[]]. now apply goto_comma_fix2.
  - apply no_nl_no_context, goto_line_no_nl.
  - apply no_nl_no_context, goto_line_no_nl.
  - apply goto_line_no_pattern5.
Qed.

(** The argument has no comma: the guard lets the line through and the
    options are added. *)
Lemma goto_guard_true :
  ~ In ","%char arg -> goto_guard (goto_line rcv arg) = true.
Proof.
  intros Hc. unfold goto_guard.
  assert (H1 : contains (str "await ") (goto_line rcv arg) = true).
  { apply contains_spec. now exists [], (rcv ++ str ".goto(" ++ arg ++ str ")"). }
  assert (H2 : contains (str ".goto(") (goto_line rcv arg) = true).
  { apply contains_spec. exists (str "await " ++ rcv), (arg ++ str ")").
    unfold goto_line. now rewrite <- !app_assoc. }
  assert (H3 : contains (str ", {") (goto_line rcv arg) = false).
  { apply contains_nohead. unfold goto_line. intros H.
    apply in_app_or in H as [H|H]; [vm_compute in H; intuition discriminate|].
    apply in_app_or in H as [H|H];
      [now apply (In_forallb_false isword ","%char rcv)|].
    apply in_app_or in H as [H|H]; [vm_compute in H; intuition discriminate|].
    apply in_app_or in H as [H|H];
      [auto|vm_compute in H; intuition discriminate]. }
  assert (H4 : endswith (str ",") (strip (goto_line rcv arg)) = false).
  { assert (E : goto_line rcv arg
                = "a"%char :: (str "wait " ++ rcv ++ str ".goto(" ++ arg) ++ [")"%char]).
    { unfold goto_line. rewrite <- !app_assoc. reflexivity. }
    rewrite E, strip_tight by reflexivity.
    unfold endswith.
    change ("a"%char :: (str "wait " ++ rcv ++ str ".goto(" ++ arg) ++ [")"%char])
      with (("a"%char :: str "wait " ++ rcv ++ str ".goto(" ++ arg) ++ [")"%char]).
    rewrite rev_unit. reflexivity. }
  now rewrite H1, H2, H3, H4.
Qed.

Lemma goto_fix2 :
  ~ In ","%char arg ->
  fix2_line (goto_line rcv arg) = Some (goto_with_options rcv arg, 1).
Proof.
  intros Hc. unfold fix2_line. rewrite (goto_guard_true Hc), goto_search.
  change (get_group 2 [(2, arg); (1, rcv)]) with (Some arg). cbv beta iota.
  rewrite (proj2 (count_char_zero _ _) Hc). cbn [Nat.eqb].
  now rewrite goto_sub.
Qed.

Lemma goto_rewrite :
  ~ In ","%char arg ->
  rewrite (goto_line rcv arg) = Some (goto_with_options rcv arg, 1).
Proof.
  intros Hc. rewrite rewrite_eq. unfold apply_fixes.
  rewrite (subn_no_match _ _ _ compile1 goto_line_no_pattern1).
  rewrite (split_lines_single _ goto_line_no_nl).
  cbn [fix2_loop]. rewrite (goto_fix2 Hc). cbn [app join_lines].
  destruct (no_nl_no_context _ goto_out_no_nl) as [H3 H4].
  rewrite (subn_no_match _ _ _ compile3 H3), (subn_no_match _ _ _ compile4 H4),
    (subn_no_match _ _ _ compile5 goto_out_no_pattern5).
  destruct (text_eqb _ _) eqn:E; [|reflexivity].
  apply text_eqb_eq in E. unfold goto_with_options, goto_line in E.
  apply app_inv_head in E. apply app_inv_head in E.
  apply (app_inv_head (str ".goto(")) in E. apply app_inv_head in E.
  discriminate.
Qed.
End GotoLine.

Lemma not_in_paren (arg : text) :
  ~ In ")"%char arg -> forallb (mem (NoneOf [")"%char])) arg = true.
Proof.
  intros H. apply not_in_forallb in H. revert H. apply forallb_impl.
  intros x Hx. simpl. now rewrite orb_false_r.
Qed.

(** X12.  A text that is one [goto] call with a single argument, for every
    receiver and every argument without comma, closing parenthesis, newline
    or [await ], gets the options argument, written with the backslashes of
    the raw-string template before its quotes; the count is one. *)
Theorem single_argument_goto_rewritten (rcv arg : text) :
  forallb isword rcv = true -> 1 <= length rcv -> 1 <= length arg ->
  ~ In ","%char arg -> ~ In ")"%char arg -> ~ In nl arg ->
  contains (str "await ") arg = false ->
  rewrite (str "await " ++ rcv ++ str ".goto(" ++ arg ++ str ")")
  = Some (str "await " ++ rcv ++ str ".goto(" ++ arg
          ++ str ", { waitUntil: \'domcontentloaded\', timeout: 10000 })", 1).
Proof.
  intros Hr Hr1 Ha1 Hc Hp Hn Hw.
  apply goto_rewrite; auto. now apply not_in_paren.
Qed.

Lemma single_argument_goto_rewritten_witness :
  rewrite (str "await " ++ str "page" ++ str ".goto("
           ++ str "baseUrl + '/login'" ++ str ")")
  = Some (str "await " ++ str "page" ++ str ".goto("
          ++ str "baseUrl + '/login'"
          ++ str ", { waitUntil: \'domcontentloaded\', timeout: 10000 })", 1).
Proof.
  apply (single_argument_goto_rewritten (str "page") (str "baseUrl + '/login'")).
  - reflexivity.
  - vm_compute. lia.
  - vm_compute. lia.
  - vm_compute. intuition discriminate.
  - vm_compute. intuition discriminate.
  - vm_compute. intuition discriminate.
  - reflexivity.
Defined.

(** X13.  A text that is one [goto] call whose argument text holds a comma
    (a second argument of any form, not only an options object in braces)
    is returned unchanged with a count of zero. *)
Theorem goto_with_comma_unchanged (rcv arg : text) :
  forallb isword rcv = true -> 1 <= length rcv ->
  In ","%char arg -> ~ In ")"%char arg -> ~ In nl arg ->
  contains (str "await ") arg = false ->
  rewrite (str "await " ++ rcv ++ str ".goto(" ++ arg ++ str ")")
  = Some (str "await " ++ rcv ++ str ".goto(" ++ arg ++ str ")", 0).
Proof.
  intros Hr Hr1 Hc Hp Hn Hw.
  apply goto_comma_rewrite; auto.
  - now apply not_in_paren.
  - destruct arg; [contradiction|simpl; lia].
Qed.

Lemma goto_with_comma_unchanged_witness :
  rewrite (str "await " ++ str "page" ++ str ".goto(" ++ str "url, opts"
           ++ str ")")
  = Some (str "await " ++ str "page" ++ str ".goto(" ++ str "url, opts"
          ++ str ")", 0).
Proof.
  apply (goto_with_comma_unchanged (str "page") (str "url, opts")).
  - reflexivity.
  - vm_compute. lia.
  - vm_compute. tauto.
  - vm_compute. intuition discriminate.
  - vm_compute. intuition discriminate.
  - reflexivity.
Defined.

(** ** Rule 2 on its own output *)

Lemma split_lines_no_nl (t l : text) : In l (split_lines t) -> ~ In nl l.
Proof.
  revert l. induction t as [|c t IH]; intros l; simpl.
  - intros [<-|[]]. auto.
  - destruct (Ascii.eqb_spec c nl) as [->|Hc].
    + intros [<-|H]; auto.
    + destruct (split_lines t) as [|l0 ls] eqn:E.
      * intros [<-|[]]. intros [H|[]]. congruence.
      * intros [<-|H].
        -- intros [H|H]; [congruence|]. apply (IH l0); [now left|exact H].
        -- apply IH. now right.
Qed.

Lemma split_lines_app (l rest : text) :
  ~ In nl l -> split_lines (l ++ nl :: rest) = l :: split_lines rest.
Proof.
  induction l as [|c l IH]; intros H; simpl.
  - reflexivity.
  - destruct (Ascii.eqb_spec c nl) as [->|_]; [exfalso; apply H; now left|].
    rewrite IH; [reflexivity|]. intros Hin. apply H. now right.
Qed.

(** Splitting the joined lines gives the lines back when none of them holds
    a newline. *)
Lemma split_join (ls : list text) :
  ls <> [] -> Forall (fun l => ~ In nl l) ls ->
  split_lines (join_lines ls) = ls.
Proof.
  induction ls as [|l ls IH]; intros Hne HF; [congruence|].
  inversion HF as [|? ? Hl HF']; subst.
  destruct ls as [|y ls].
  - simpl. now apply split_lines_single.
  - change (join_lines (l :: y :: ls)) with (l ++ nl :: join_lines (y :: ls)).
    rewrite (split_lines_app _ _ Hl), IH; [reflexivity|discriminate|exact HF'].
Qed.

Section ScanForall.
Variables (r : regex) (items : list titem) (p : ascii -> bool).
Hypothesis r_nonempty :
  forall s s' g, match_at r s = Some (s', g) ->
                 exists W, W <> [] /\ s = W ++ s'.
Hypothesis r_nil : match_at r [] = None.
Hypothesis E_p :
  forall s s' g, forallb p s = true -> match_at r s = Some (s', g) ->
                 forallb p (expand items g) = true.

Lemma scan_forallb_aux n : forall X,
  length X <= n -> forallb p X = true ->
  forallb p (fst (scan r items 0 X)) = true.
Proof.
  induction n as [|n IH]; intros X Hlen HX.
  - destruct X; [|simpl in Hlen; lia]. now rewrite scan_nil by exact r_nil.
  - destruct (scan_first r items X) as (G & Y & -> & Hout & _ & HY).
    rewrite Hout. rewrite forallb_app in *.
    apply andb_prop in HX as [HG HYp]. rewrite HG. simpl.
    destruct HY as [->|(Y' & g & Hm)]; [now rewrite scan_nil by exact r_nil|].
    destruct (r_nonempty _ _ _ Hm) as (W & HW & ->).
    rewrite (scan_at_match _ _ _ _ _ HW Hm). cbn [fst].
    rewrite forallb_app, (E_p _ _ _ HYp Hm). simpl.
    rewrite forallb_app in HYp. apply andb_prop in HYp as [_ HY'].
    apply IH; [|exact HY'].
    rewrite !length_app in Hlen. destruct W; [congruence|].
    simpl in Hlen. lia.
Qed.

Lemma scan_forallb (X : text) :
  forallb p X = true -> forallb p (fst (scan r items 0 X)) = true.
Proof. now apply (scan_forallb_aux (length X)). Qed.
End ScanForall.

Lemma goto_nonempty s s' g :
  match_at pattern_goto s = Some (s', g) -> exists W, W <> [] /\ s = W ++ s'.
Proof.
  intros H. apply match_goto_shape in H as (rcv & arg & -> & _).
  eexists. split; [|reflexivity]. discriminate.
Qed.

Lemma forallb_not_in (x : ascii) (l : text) :
  forallb (fun c => negb (Ascii.eqb c x)) l = true -> ~ In x l.
Proof.
  intros H. apply (In_forallb_false _ x l H). now rewrite Ascii.eqb_refl.
Qed.

Lemma fix2_line_no_nl (l l' : text) (d : nat) :
  ~ In nl l -> fix2_line l = Some (l', d) -> ~ In nl l'.
Proof.
  intros Hl. unfold fix2_line.
  destruct (goto_guard l); [|now intros [= <- _]].
  destruct (search pattern_goto l) as [g|] eqn:Hs; [|now intros [= <- _]].
  apply search_sound in Hs as (pre & w & post & _ & HM).
  apply pattern_goto_inv in HM as (rcv & arg & _ & _ & _ & _ & _ & ->).
  change (get_group 2 [(2, arg); (1, rcv)]) with (Some arg). cbv beta iota.
  destruct (count_char "," arg =? 0); [|now intros [= <- _]].
  unfold sub, subn. rewrite compile_goto_eq. simpl.
  intros [= <- _]. apply forallb_not_in.
  apply (scan_forallb pattern_goto items_goto _ goto_nonempty eq_refl).
  - intros s s' g Hp Hm.
    apply match_goto_shape in Hm as (r1 & a1 & -> & _ & _ & ->).
    rewrite expand_goto. rewrite <- !app_assoc, !forallb_app in Hp.
    apply andb_prop in Hp as [_ Hp]. apply andb_prop in Hp as [Hr Hp].
    apply andb_prop in Hp as [_ Hp]. apply andb_prop in Hp as [Ha _].
    rewrite !forallb_app, Hr, Ha. reflexivity.
  - now apply not_in_forallb.
Qed.

Lemma search_gap r (G Y : text) :
  (forall G1 G2, G = G1 ++ G2 -> G2 <> [] -> match_at r (G2 ++ Y) = None) ->
  search r (G ++ Y) = search r Y.
Proof.
  induction G as [|a G IH]; intros H; [reflexivity|].
  pose proof (H [] (a :: G) eq_refl ltac:(discriminate)) as H0.
  cbn [app] in *. cbn [search]. rewrite H0.
  apply IH. intros G1 G2 -> HG2. now apply (H (a :: G1) G2).
Qed.

(** A line in which the pattern of rule 2 is found holds [, {] once
    [re.sub] has rewritten it. *)
Lemma goto_sub_has_options (l : text) g :
  search pattern_goto l = Some g ->
  contains (str ", {") (fst (scan pattern_goto items_goto 0 l)) = true.
Proof.
  intros Hs.
  destruct (scan_first pattern_goto items_goto l)
    as (G & Y & -> & Hout & Hgap & HY).
  rewrite (search_gap _ _ _ Hgap) in Hs. rewrite Hout.
  destruct HY as [->|(Y' & g' & Hm)]; [discriminate|].
  destruct (goto_nonempty _ _ _ Hm) as (W & HW & ->).
  rewrite (scan_at_match _ _ _ _ _ HW Hm). cbn [fst].
  apply match_goto_shape in Hm as (rcv & arg & _ & _ & _ & ->).
  rewrite expand_goto. apply contains_spec.
  exists (G ++ str "await " ++ rcv ++ str ".goto(" ++ arg),
    (str " waitUntil: \'domcontentloaded\', timeout: 10000 })"
     ++ fst (scan pattern_goto items_goto 0 Y')).
  rewrite <- !app_assoc. reflexivity.
Qed.

Lemma options_block_guard (l : text) :
  contains (str ", {") l = true -> fix2_line l = Some (l, 0).
Proof.
  intros H. unfold fix2_line, goto_guard. rewrite H. simpl.
  now rewrite andb_false_r.
Qed.

(** The body of the loop of Fix 2 leaves its own result alone. *)
Lemma fix2_line_idem (l l' : text) (d : nat) :
  fix2_line l = Some (l', d) -> fix2_line l' = Some (l', 0).
Proof.
  intros H. pose proof H as H0. revert H. unfold fix2_line.
  destruct (goto_guard l) eqn:Eg; [|intros [= <- <-]; exact H0].
  destruct (search pattern_goto l) as [g|] eqn:Hs;
    [|intros [= <- <-]; exact H0].
  pose proof (goto_sub_has_options _ _ Hs) as Hopt.
  apply search_sound in Hs as (pre & w & post & _ & HM).
  apply pattern_goto_inv in HM as (rcv & arg & _ & _ & _ & _ & _ & ->).
  change (get_group 2 [(2, arg); (1, rcv)]) with (Some arg). cbv beta iota.
  destruct (count_char "," arg =? 0); [|intros [= <- <-]; exact H0].
  unfold sub, subn. rewrite compile_goto_eq. simpl.
  intros [= <- _]. now apply options_block_guard.
Qed.

Lemma fix2_loop_post (P Q : text -> Prop) :
  (forall l l' d, P l -> fix2_line l = Some (l', d) -> Q l') ->
  forall lines acc n out k,
    Forall P lines -> Forall Q acc ->
    fix2_loop lines acc n = Some (out, k) ->
    Forall Q out /\ length out = length acc + length lines.
Proof.
  intros HP. induction lines as [|l lines IH]; intros acc n out k Hl Ha; simpl.
  - intros [= <- _]. split; [exact Ha|lia].
  - destruct (fix2_line l) as [[l' d]|] eqn:E; [|discriminate].
    inversion Hl as [|? ? Hl1 Hl2]; subst. intros H.
    apply IH in H as [H1 H2]; [| exact Hl2 |].
    + split; [exact H1|]. rewrite H2, length_app. simpl. lia.
    + apply Forall_app. split; [exact Ha|].
      constructor; [|constructor]. now apply (HP l l' d).
Qed.

(** The lines that the loop of Fix 2 produces: none holds a newline, and
    the loop body rewrites none of them. *)
Lemma fix2_lines_settled (t : text) (n k : nat) (new_lines : list text) :
  fix2_loop (split_lines t) [] n = Some (new_lines, k) ->
  new_lines <> []
  /\ Forall (fun l => ~ In nl l /\ fix2_line l = Some (l, 0)) new_lines.
Proof.
  intros H.
  apply (fix2_loop_post (fun l => ~ In nl l)
           (fun l => ~ In nl l /\ fix2_line l = Some (l, 0))) in H
    as [HF Hlen].
  - split; [|exact HF]. intros ->. simpl in Hlen.
    pose proof (split_lines_nonempty t) as Hne.
    destruct (split_lines t); [congruence|discriminate].
  - intros l l' d Hl E. split.
    + exact (fix2_line_no_nl _ _ _ Hl E).
    + exact (fix2_line_idem _ _ _ E).
  - apply Forall_forall. intros l. apply split_lines_no_nl.
  - constructor.
Qed.

Lemma settled_idle (new_lines : list text) :
  new_lines <> [] ->
  Forall (fun l => ~ In nl l /\ fix2_line l = Some (l, 0)) new_lines ->
  rule2_idle (join_lines new_lines).
Proof.
  intros Hne HF l Hl. rewrite split_join in Hl; [|exact Hne|].
  - rewrite Forall_forall in HF. now apply HF.
  - revert HF. apply Forall_impl. tauto.
Qed.

(** X14.  Fix 2 is idempotent: run again on the text it has produced, the
    split, the loop and the join return the same text and add nothing to the
    count.  (A rewritten line holds [, {], which the guard rejects.) *)
Theorem rule2_idempotent (content content' : text) (n n' : nat) :
  fix2 content n = Some (content', n') ->
  fix2 content' n' = Some (content', n').
Proof.
  unfold fix2.
  destruct (fix2_loop (split_lines content) [] n) as [[ls k]|] eqn:E;
    [|discriminate].
  intros [= <- <-].
  apply fix2_lines_settled in E as [Hne HF].
  rewrite (fix2_loop_id (split_lines (join_lines ls)) [] k
             (settled_idle _ Hne HF)).
  cbn [app]. now rewrite join_split.
Qed.

Lemma rule2_idempotent_witness :
  fix2 (unlines ["await a.goto(x); await b.goto(y)";
                 "  await page.goto(url, { waitUntil: 'load' })"]) 1
  = Some (unlines ["await a.goto(x, { waitUntil: \'domcontentloaded\', timeout: 10000 }); await b.goto(y, { waitUntil: \'domcontentloaded\', timeout: 10000 })";
                   "  await page.goto(url, { waitUntil: 'load' })"], 2)
  /\ fix2 (unlines ["await a.goto(x, { waitUntil: \'domcontentloaded\', timeout: 10000 }); await b.goto(y, { waitUntil: \'domcontentloaded\', timeout: 10000 })";
                    "  await page.goto(url, { waitUntil: 'load' })"]) 2
     = Some (unlines ["await a.goto(x, { waitUntil: \'domcontentloaded\', timeout: 10000 }); await b.goto(y, { waitUntil: \'domcontentloaded\', timeout: 10000 })";
                      "  await page.goto(url, { waitUntil: 'load' })"], 2).
Proof.
  assert (H : fix2 (unlines ["await a.goto(x); await b.goto(y)";
                             "  await page.goto(url, { waitUntil: 'load' })"]) 1
    = Some (unlines ["await a.goto(x, { waitUntil: \'domcontentloaded\', timeout: 10000 }); await b.goto(y, { waitUntil: \'domcontentloaded\', timeout: 10000 })";
                     "  await page.goto(url, { waitUntil: 'load' })"], 2))
    by (vm_compute; reflexivity).
  split; [exact H|]. exact (rule2_idempotent _ _ _ _ H).
Defined.

Lemma apply_fixes_stages (t : text) :
  apply_fixes t
  = ('(c1, n1) <- subn pattern1 replacement1 t ;;
     '(c2, n2) <- fix2 c1 (0 + n1) ;;
     '(c3, n3) <- subn pattern3 replacement3 c2 ;;
     '(c4, n4) <- subn pattern4 replacement4 c3 ;;
     '(c5, n5) <- subn pattern5 replacement5 c4 ;;
     Some (c5, n2 + n3 + n4 + n5)).
Proof.
  unfold apply_fixes, fix2.
  destruct (subn pattern1 replacement1 t) as [[c1 n1]|]; [|reflexivity].
  destruct (fix2_loop (split_lines c1) [] (0 + n1)) as [[ls n2]|]; reflexivity.
Qed.

(** ** A text without fixed-duration waits *)

Section KeepsPattern5.
Variables (r : regex) (items : list titem).
Hypothesis r_nonempty :
  forall s s' g, match_at r s = Some (s', g) ->
                 exists W, W <> [] /\ s = W ++ s'.
Hypothesis r_nil : match_at r [] = None.
Hypothesis E_head :
  forall s s' g, match_at r s = Some (s', g) ->
    (exists E', expand items g = "/"%char :: E')
    \/ (exists E', expand items g = str "await " ++ E').
Hypothesis E_inside :
  forall s s' g, has_match pattern5 s = false -> match_at r s = Some (s', g) ->
    forall Z, no_start pattern5 (expand items g) Z.

Lemma keeps_pattern5 (X : text) :
  has_match pattern5 X = false ->
  has_match pattern5 (fst (scan r items 0 X)) = false.
Proof.
  apply (scan_free r pattern5 items (fun X => has_match pattern5 X = false));
    auto.
  - intros W Y. apply has_match_suffix.
  - intros Y H _. now apply has_match_false_head.
  - intros w g. apply pattern5_tight.
  - intros s s' g Hs Hm S1 S2 Z. exact (E_inside s s' g Hs Hm Z S1 S2).
Qed.
End KeepsPattern5.

Lemma rule1_keeps_pattern5 (X : text) :
  has_match pattern5 X = false ->
  has_match pattern5 (fst (scan pattern1 items1 0 X)) = false.
Proof.
  apply keeps_pattern5; auto.
  - intros s s' g H. pose proof H as H'.
    apply match1_shape in H as (rcv & Hne & _).
    apply match_at_sound in H' as (w & E & _).
    exists w. split; [exact (nonempty_prefix _ _ _ E Hne)|exact E].
  - intros s s' g H. apply match1_shape in H as (rcv & _ & _ & ->).
    right. rewrite expand1. now eexists.
  - intros s s' g _ H Z.
    apply match1_shape in H as (rcv & _ & Hr & ->).
    rewrite expand1.
    apply (await_call_no_start _ pattern5_await rcv
             (str "waitForSelector('body', { timeout: 5000 })"));
      [exact Hr|reflexivity|].
    apply pattern5_not_at; [exact Hr|]. intros rest. discriminate.
Qed.

Lemma goto_keeps_pattern5 (X : text) :
  has_match pattern5 X = false ->
  has_match pattern5 (fst (scan pattern_goto items_goto 0 X)) = false.
Proof.
  apply keeps_pattern5; auto.
  - apply goto_nonempty.
  - intros s s' g H.
    apply match_goto_shape in H as (rcv & arg & _ & _ & _ & ->).
    right. rewrite expand_goto. now eexists.
  - intros s s' g _ H Z.
    apply match_goto_shape in H as (rcv & arg & _ & Hr & Ha & ->).
    rewrite expand_goto.
    replace (str "await " ++ rcv ++ str ".goto(" ++ arg
             ++ str ", { waitUntil: \'domcontentloaded\', timeout: 10000 })")
      with ((str "await " ++ rcv ++ "."%char :: str "goto(") ++ arg
            ++ str ", { waitUntil: \'domcontentloaded\', timeout: 10000 })")
      by (canon; reflexivity).
    apply no_start_app.
    { apply (await_call_no_start _ pattern5_await); [exact Hr|reflexivity|].
      apply pattern5_not_at; [exact Hr|]. intros rest. discriminate. }
    apply no_start_app.
    { apply no_start_before_comma; [apply pattern5_tight|exact Ha]. }
    now apply (no_start_lit _ pattern5_await).
Qed.

Lemma join_keeps_pattern5 (ls : list text) :
  Forall (fun l => has_match pattern5 l = false) ls ->
  has_match pattern5 (join_lines ls) = false.
Proof.
  intros HF. apply not_occurs_has_match.
  intros (pre & w & post & g & E & HM).
  pose proof (pattern5_tight w g HM) as Ht.
  destruct (substring_in_line w (tight_no_nl w Ht) (tight_nonempty w Ht)
              ls pre post E) as (l & p & q & Hin & ->).
  rewrite Forall_forall in HF. specialize (HF _ Hin).
  assert (Ho : occurs pattern5 (p ++ w ++ q)) by now exists p, w, q, g.
  apply has_match_occurs in Ho. congruence.
Qed.

Lemma fix2_line_keeps_pattern5 (l l' : text) (d : nat) :
  has_match pattern5 l = false -> fix2_line l = Some (l', d) ->
  has_match pattern5 l' = false.
Proof.
  intros Hl. unfold fix2_line.
  destruct (goto_guard l); [|now intros [= <- _]].
  destruct (search pattern_goto l) as [g|] eqn:Hs; [|now intros [= <- _]].
  apply search_sound in Hs as (pre & w & post & _ & HM).
  apply pattern_goto_inv in HM as (rcv & arg & _ & _ & _ & _ & _ & ->).
  change (get_group 2 [(2, arg); (1, rcv)]) with (Some arg). cbv beta iota.
  destruct (count_char "," arg =? 0); [|now intros [= <- _]].
  unfold sub, subn. rewrite compile_goto_eq. simpl.
  intros [= <- _]. now apply goto_keeps_pattern5.
Qed.

Lemma fix2_loop_keeps_pattern5 (t : text) (n k : nat) (ls : list text) :
  has_match pattern5 t = false ->
  fix2_loop (split_lines t) [] n = Some (ls, k) ->
  has_match pattern5 (join_lines ls) = false.
Proof.
  intros Ht H. apply join_keeps_pattern5.
  assert (HF : Forall (fun l => has_match pattern5 l = false) (split_lines t)).
  { apply Forall_forall. intros l Hl.
    apply line_is_substring in Hl as (pre & post & ->).
    now apply has_match_inside in Ht. }
  exact (fix2_loop_keeps _ fix2_line_keeps_pattern5 _ _ _ _ _
           HF (Forall_nil _) H).
Qed.

Lemma no_pattern5_no_context (t : text) :
  has_match pattern5 t = false ->
  has_match pattern3 t = false /\ has_match pattern4 t = false.
Proof.
  intros H. split; apply not_occurs_has_match; intros Ho.
  - apply occurs_pattern3_pattern5, has_match_occurs in Ho. congruence.
  - apply occurs_pattern4_pattern5, has_match_occurs in Ho. congruence.
Qed.

(** X15.  On a text without a fixed-duration wait call the engine is
    idempotent: rules 1 and 2 are the only ones that can rewrite it, and a
    second pass over what they leave returns it unchanged with a count of
    zero. *)
Theorem idempotent_without_fixed_wait (t out : text) (n : nat) :
  ~ occurs pattern5 t -> rewrite t = Some (out, n) ->
  rewrite out = Some (out, 0).
Proof.
  intros Hno H. apply not_occurs_has_match in Hno.
  apply rewrite_out in H as (changes & H).
  pose proof (apply_fixes_out _ _ _ H) as [H1 H5].
  destruct (no_pattern5_no_context _ H5) as [H3 H4].
  apply rewrite_noop; auto.
  revert H. unfold apply_fixes, subn.
  rewrite compile1_eq, compile3_eq, compile4_eq, compile5_eq.
  pose proof (rule1_keeps_pattern5 _ Hno) as Hc1.
  destruct (scan pattern1 items1 0 t) as [c1 n1]. simpl in Hc1.
  cbv beta iota zeta.
  destruct (fix2_loop (split_lines c1) [] (0 + n1)) as [[ls n2]|] eqn:E2;
    [|discriminate].
  cbv beta iota zeta.
  pose proof (fix2_loop_keeps_pattern5 _ _ _ _ Hc1 E2) as Hc2.
  destruct (no_pattern5_no_context _ Hc2) as [Hc3 Hc4].
  rewrite (scan_no_match _ _ _ Hc3). cbv beta iota zeta.
  rewrite (scan_no_match _ _ _ Hc4). cbv beta iota zeta.
  rewrite (scan_no_match _ _ _ Hc2). cbv beta iota zeta.
  intros [= <- _].
  apply fix2_lines_settled in E2 as [Hne HF].
  now apply settled_idle.
Qed.

Lemma idempotent_without_fixed_wait_witness :
  rewrite (unlines ["await page.goto(u)";
                    "await page.waitForLoadState('networkidle')"])
  = Some (unlines ["await page.goto(u, { waitUntil: \'domcontentloaded\', timeout: 10000 })";
                   "await page.waitForSelector('body', { timeout: 5000 })"], 2)
  /\ rewrite (unlines ["await page.goto(u, { waitUntil: \'domcontentloaded\', timeout: 10000 })";
                       "await page.waitForSelector('body', { timeout: 5000 })"])
     = Some (unlines ["await page.goto(u, { waitUntil: \'domcontentloaded\', timeout: 10000 })";
                      "await page.waitForSelector('body', { timeout: 5000 })"], 0).
Proof.
  assert (H : rewrite (unlines ["await page.goto(u)";
                                "await page.waitForLoadState('networkidle')"])
    = Some (unlines ["await page.goto(u, { waitUntil: \'domcontentloaded\', timeout: 10000 })";
                     "await page.waitForSelector('body', { timeout: 5000 })"], 2))
    by (vm_compute; reflexivity).
  split; [exact H|].
  apply (idempotent_without_fixed_wait
           (unlines ["await page.goto(u)";
                     "await page.waitForLoadState('networkidle')"]) _ 2);
    [|exact H].
  apply (needle_free _ _ _ (occurs_pattern5_needle _)). reflexivity.
Defined.

Lemma rewrite_zero_unchanged (t out : text) :
  rewrite t = Some (out, 0) -> out = t.
Proof.
  rewrite rewrite_eq.
  destruct (apply_fixes t) as [[content changes]|] eqn:E; [|discriminate].
  destruct (text_eqb content t).
  - now intros [= <-].
  - intros [= <- ->]. now apply apply_fixes_zero.
Qed.

(** X16.  The engine misses no text that holds a network-idle wait or a
    fixed-duration wait call: such a text is always returned changed, with a
    count of at least one. *)
Theorem wait_forces_change (t out : text) (n : nat) :
  occurs pattern1 t \/ occurs pattern5 t ->
  rewrite t = Some (out, n) -> out <> t /\ 0 < n.
Proof.
  intros Ho H.
  assert (Hne : out <> t).
  { intros ->. apply rewrite_leaves_no_match in H. tauto. }
  split; [exact Hne|].
  destruct n; [|lia]. now apply rewrite_zero_unchanged in H.
Qed.

Lemma wait_forces_change_witness :
  unlines ["const x = 1";
           "// TODO: Replace timeout with specific element wait";
           "    await page.waitForFunction(() => document.readyState === 'complete', { timeout: 50 }).catch(() => {})"]
  <> unlines ["const x = 1"; "await page.waitForTimeout(50)"]
  /\ 0 < 1.
Proof.
  apply (wait_forces_change
           (unlines ["const x = 1"; "await page.waitForTimeout(50)"])).
  - right. exists (str "const x = 1" ++ [nl]),
      (str "await " ++ str "page" ++ str ".waitForTimeout(" ++ str "50"
       ++ str ")"), [].
    eexists. split; [reflexivity|].
    apply pattern5_intro; first [reflexivity | vm_compute; lia].
  - vm_compute. reflexivity.
Defined.

(** ** [main] over distinct spec files *)

Lemma fix_file_rewrite (fs fs' : files) f k (c0 out : text) (n : nat) :
  fix_file fs f = Some (fs', k) -> fs f = Some c0 ->
  rewrite c0 = Some (out, n) -> fs' f = Some out /\ k = n.
Proof.
  intros H Hc. rewrite rewrite_eq.
  apply fix_file_spec in H as (o & content & changes & Ho & Ha & Hcase).
  rewrite Hc in Ho. injection Ho as <-. rewrite Ha.
  destruct Hcase as [(-> & -> & ->)|(Hne & -> & -> & _)].
  - rewrite text_eqb_refl. intros [= <- <-]. auto.
  - destruct (text_eqb content c0) eqn:E;
      [apply text_eqb_eq in E; contradiction|].
    intros [= <- <-]. now rewrite write_same.
Qed.

Lemma main_loop_once p (c0 out : text) (n : nat) : forall paths (st st' : totals),
  NoDup paths -> main_loop paths st = Some st' -> In p paths ->
  fs_of st p = Some c0 -> contains (str "waitForTimeout") c0 = true ->
  rewrite c0 = Some (out, n) -> fs_of st' p = Some out.
Proof.
  induction paths as [|f rest IH]; intros st st' Hnd H Hin Hc Hw Hr;
    [contradiction|].
  inversion Hnd as [|? ? Hf Hnd']; subst.
  apply main_loop_cons in H
    as (content & Hcf & [[Hs H]|(_ & fs' & k & st1 & Hfix & H & E & _)]).
  - destruct Hin as [->|Hin]; [|now apply (IH st)].
    rewrite Hc in Hcf. injection Hcf as <-.
    rewrite skipped_eq, Hw in Hs. discriminate.
  - destruct Hin as [->|Hin].
    + rewrite (main_loop_frame p _ _ _ H Hf), E.
      exact (proj1 (fix_file_rewrite _ _ _ _ _ _ _ Hfix Hc Hr)).
    + apply (IH st1); auto. rewrite E.
      rewrite (fix_file_frame _ _ _ _ p Hfix); [exact Hc|].
      intros ->. contradiction.
Qed.

(** X17.  Over distinct spec files, [main] leaves in each file that held
    [waitForTimeout] exactly the text that the engine returns for its
    contents: every such file is rewritten once, from its own contents. *)
Theorem main_rewrites_each_file_once (spec_files : list string) (fs : files)
        (st : totals) (p : string) (c0 out : text) (n : nat) :
  NoDup spec_files -> main spec_files fs = Some st -> In p spec_files ->
  fs p = Some c0 -> contains (str "waitForTimeout") c0 = true ->
  rewrite c0 = Some (out, n) -> fs_of st p = Some out.
Proof.
  intros Hnd H Hin Hc Hw Hr.
  exact (main_loop_once p c0 out n _ _ _ Hnd H Hin Hc Hw Hr).
Qed.

Lemma main_rewrites_each_file_once_witness :
  fs_of {| fs_of := write (write (write (write (fun _ => None) "a.spec.ts"
                                           (str "await page.waitForTimeout(5)"))
                                    "b.spec.ts" (str "await page.waitForTimeout(7)"))
                             "a.spec.ts"
                             (unlines ["// TODO: Replace timeout with specific element wait";
                                       "    await page.waitForFunction(() => document.readyState === 'complete', { timeout: 5 }).catch(() => {})"]))
                      "b.spec.ts"
                      (unlines ["// TODO: Replace timeout with specific element wait";
                                "    await page.waitForFunction(() => document.readyState === 'complete', { timeout: 7 }).catch(() => {})"]);
           total_files := 2; total_changes := 2;
           fixed := ["a.spec.ts"; "b.spec.ts"] |}
        "a.spec.ts"
  = Some (unlines ["// TODO: Replace timeout with specific element wait";
                   "    await page.waitForFunction(() => document.readyState === 'complete', { timeout: 5 }).catch(() => {})"]).
Proof.
  apply (main_rewrites_each_file_once ["a.spec.ts"; "b.spec.ts"]
           (write (write (fun _ => None) "a.spec.ts"
                     (str "await page.waitForTimeout(5)"))
                  "b.spec.ts" (str "await page.waitForTimeout(7)"))
           _ "a.spec.ts" (str "await page.waitForTimeout(5)") _ 1).
  - repeat constructor; vm_compute; intuition discriminate.
  - vm_compute. reflexivity.
  - now left.
  - reflexivity.
  - reflexivity.
  - vm_compute. reflexivity.
Defined.

Lemma file_changes_frame (fs fs' : files) f k (rest : list string) :
  fix_file fs f = Some (fs', k) -> ~ In f rest ->
  map (file_changes fs') rest = map (file_changes fs) rest.
Proof.
  intros H Hf. apply map_ext_in. intros q Hq. unfold file_changes.
  rewrite (fix_file_frame _ _ _ _ q H); [reflexivity|].
  intros ->. contradiction.
Qed.

Lemma fix_file_count (fs fs' : files) f k (content : text) :
  fix_file fs f = Some (fs', k) -> fs f = Some content ->
  skipped content = false -> file_changes fs f = k.
Proof.
  intros H Hc Hs. unfold file_changes. rewrite Hc, Hs.
  destruct (rewrite content) as [[out n]|] eqn:Hr.
  - symmetry. exact (proj2 (fix_file_rewrite _ _ _ _ _ _ _ H Hc Hr)).
  - exfalso. revert Hr. rewrite rewrite_eq.
    destruct (apply_fixes_total content) as (c & m & ->).
    now destruct (text_eqb c content).
Qed.

Lemma main_loop_sum : forall paths (st st' : totals),
  NoDup paths -> main_loop paths st = Some st' ->
  total_changes st'
  = total_changes st + list_sum (map (file_changes (fs_of st)) paths)
  /\ total_files st'
     = total_files st
       + length (filter (fun p => 0 <? file_changes (fs_of st) p) paths).
Proof.
  induction paths as [|f rest IH]; intros st st' Hnd H.
  - simpl in H. injection H as <-. simpl. lia.
  - inversion Hnd as [|? ? Hf Hnd']; subst.
    apply main_loop_cons in H
      as (content & Hc & [[Hs H]|(Hs & fs' & k & st1 & Hfix & H & E & Ec & En)]).
    + apply (IH _ _ Hnd') in H as [H1 H2].
      assert (E0 : file_changes (fs_of st) f = 0)
        by (unfold file_changes; now rewrite Hc, Hs).
      simpl. rewrite E0. simpl. lia.
    + apply (IH _ _ Hnd') in H as [H1 H2].
      rewrite E in H1, H2.
      rewrite (file_changes_frame _ _ _ _ _ Hfix Hf) in H1.
      assert (Hfilter : filter (fun p => 0 <? file_changes fs' p) rest
                        = filter (fun p => 0 <? file_changes (fs_of st) p) rest).
      { apply filter_ext_in. intros q Hq. unfold file_changes.
        rewrite (fix_file_frame _ _ _ _ q Hfix); [reflexivity|].
        intros ->. contradiction. }
      rewrite Hfilter in H2.
      pose proof (fix_file_count _ _ _ _ _ Hfix Hc Hs) as Ek.
      simpl. rewrite Ek. destruct (0 <? k); simpl; lia.
Qed.

(** X18.  Over distinct spec files, the total that [main] reports is the sum
    of the counts that the engine returns for the files that hold
    [waitForTimeout], and the number of files it reports is the number of
    those whose count is not zero. *)
Theorem main_totals_are_sums (spec_files : list string) (fs : files)
        (st : totals) :
  NoDup spec_files -> main spec_files fs = Some st ->
  total_changes st = list_sum (map (file_changes fs) spec_files)
  /\ total_files st
     = length (filter (fun p => 0 <? file_changes fs p) spec_files).
Proof.
  intros Hnd H. apply (main_loop_sum _ _ _ Hnd) in H as [H1 H2].
  simpl in *. split; assumption.
Qed.

Lemma main_totals_are_sums_witness :
  2 = list_sum (map (file_changes
                       (write (write (fun _ => None) "a.spec.ts"
                                 (str "await page.waitForLoadState('networkidle')"))
                              "b.spec.ts"
                              (str "await a.waitForTimeout(7); await b.waitForTimeout(8)")))
                    ["a.spec.ts"; "b.spec.ts"])
  /\ 1 = length (filter (fun p => 0 <? file_changes
                       (write (write (fun _ => None) "a.spec.ts"
                                 (str "await page.waitForLoadState('networkidle')"))
                              "b.spec.ts"
                              (str "await a.waitForTimeout(7); await b.waitForTimeout(8)")) p)
                    ["a.spec.ts"; "b.spec.ts"]).
Proof.
  apply (main_totals_are_sums ["a.spec.ts"; "b.spec.ts"]
           (write (write (fun _ => None) "a.spec.ts"
                     (str "await page.waitForLoadState('networkidle')"))
                  "b.spec.ts"
                  (str "await a.waitForTimeout(7); await b.waitForTimeout(8)"))
           {| fs_of := write (write (write (fun _ => None) "a.spec.ts"
                                       (str "await page.waitForLoadState('networkidle')"))
                                "b.spec.ts"
                                (str "await a.waitForTimeout(7); await b.waitForTimeout(8)"))
                         "b.spec.ts"
                         (unlines ["// TODO: Replace timeout with specific element wait";
                                   "    await a.waitForFunction(() => document.readyState === 'complete', { timeout: 7 }).catch(() => {}); // TODO: Replace timeout with specific element wait";
                                   "    await b.waitForFunction(() => document.readyState === 'complete', { timeout: 8 }).catch(() => {})"]);
              total_files := 1; total_changes := 2;
              fixed := ["b.spec.ts"] |}).
  - repeat constructor; vm_compute; intuition discriminate.
  - vm_compute. reflexivity.
Defined.
